(** * JOS user-level IPC library (lib/ipc.c) and kernel monitor backtrace
      (kern/monitor.c): interaction-tree embedding and verification.

    Both programs talk to their environment (system calls, raw stack
    memory, the console) and contain loops that need not terminate
    (the send retry loop, the frame-pointer walk over a cyclic chain).
    They are embedded as interaction trees: every call that leaves the
    C function is an event, the C control flow is the tree, and loops are
    [ITree.iter].  Handlers give the events a meaning afterwards. *)

From Stdlib Require Import String Ascii ZArith List Lia Bool.
From ITree Require Import ITree ITreeFacts Events.State Events.StateFacts
  Events.Exception Props.Leaf.
From Paco Require Import paco.
Import ListNotations.
Import ITreeNotations.
Local Open Scope Z_scope.
Local Open Scope itree_scope.

(* ===================================================================== *)
(** * Machine integers *)
(* ===================================================================== *)

(** [uint32_t] and [unsigned int] values are integers in [0, 2^32) and
    unsigned arithmetic wraps; [int] and [int32_t] values are integers in
    [-2^31, 2^31). *)
Definition wrap32 (z : Z) : Z := z mod 2 ^ 32.

(** Conversion of a 32-bit word to [int32_t] (same bits, two's complement). *)
Definition to_int32 (z : Z) : Z :=
  let w := wrap32 z in if w <? 2 ^ 31 then w else w - 2 ^ 32.

(** The null pointer. *)
Definition NULL : Z := 0.

(* ===================================================================== *)
(** * lib/ipc.c *)
(* ===================================================================== *)

Module Ipc.

(** The fields of [struct Env] that [ipc_recv] reads through the global
    [env] pointer. *)
Variant env_field : Type :=
| env_ipc_from
| env_ipc_perm
| env_ipc_value.

(** Everything [ipc_recv] and [ipc_send] do besides local control flow:
    the three system calls, [panic] (which does not return), stores
    through the out-parameters and reads of [env]. *)
Variant ipcE : Type -> Type :=
| SysIpcRecv (dstva : Z) : ipcE Z
| SysIpcTrySend (to_env val srcva perm : Z) : ipcE Z
| SysYield : ipcE unit
| Panic (r to_env : Z) : ipcE void
| Store (ptr v : Z) : ipcE unit
| ReadEnv (f : env_field) : ipcE Z.

Definition sys_ipc_recv (dstva : Z) : itree ipcE Z :=
  ITree.trigger (SysIpcRecv dstva).

Definition sys_ipc_try_send (to_env val srcva perm : Z) : itree ipcE Z :=
  ITree.trigger (SysIpcTrySend to_env val srcva perm).

Definition sys_yield : itree ipcE unit := ITree.trigger SysYield.

(** [panic("IPC send error: %e, env: %d", r, to_env)]. *)
Definition panic {R} (r to_env : Z) : itree ipcE R :=
  Vis (Panic r to_env) (fun v : void => match v with end).

(** [*ptr = v]. *)
Definition store (ptr v : Z) : itree ipcE unit := ITree.trigger (Store ptr v).

(** [env->f]. *)
Definition env_get (f : env_field) : itree ipcE Z := ITree.trigger (ReadEnv f).

(** [if (c) body;] *)
Definition when {E} (c : bool) (body : itree E unit) : itree E unit :=
  if c then body else Ret tt.

(** [ipc_recv], lib/ipc.c lines 22-43. *)
Definition ipc_recv (from_env_store pg perm_store : Z) : itree ipcE Z :=
  r <- (if pg =? NULL
        then sys_ipc_recv 0xffffffff
        else sys_ipc_recv pg) ;;
  if r <? 0 then
    when (negb (from_env_store =? NULL)) (store from_env_store 0) ;;
    when (negb (perm_store =? NULL)) (store perm_store 0) ;;
    Ret r
  else
    when (negb (from_env_store =? NULL))
         (v <- env_get env_ipc_from ;; store from_env_store v) ;;
    when (negb (perm_store =? NULL))
         (v <- env_get env_ipc_perm ;; store perm_store v) ;;
    v <- env_get env_ipc_value ;;
    Ret (to_int32 v).

Section Send.

(** The error number [E_IPC_NOT_RECV] of inc/error.h. *)
Variable E_IPC_NOT_RECV : Z.

(** One pass through the body of the [do ... while] loop, lines 58-63:
    [inl tt] to go round again, [inr r] to leave the loop with [r]. *)
Definition ipc_send_body (to_env val pg perm : Z) (_ : unit)
  : itree ipcE (unit + Z) :=
  r <- (if pg =? NULL
        then sys_ipc_try_send to_env val 0xffffffff perm
        else sys_ipc_try_send to_env val pg perm) ;;
  sys_yield ;;
  if r =? - E_IPC_NOT_RECV then Ret (inl tt) else Ret (inr r).

(** [ipc_send], lib/ipc.c lines 53-67. *)
Definition ipc_send (to_env val pg perm : Z) : itree ipcE unit :=
  r <- ITree.iter (ipc_send_body to_env val pg perm) tt ;;
  if r <? 0 then panic r to_env else Ret tt.

End Send.

(* --------------------------------------------------------------------- *)
(** ** A scripted system-call layer *)
(* --------------------------------------------------------------------- *)

(** What the library calls, in the order it calls it. *)
Variant call : Type :=
| CRecv (dstva : Z)
| CTrySend (to_env val srcva perm : Z)
| CYield
| CStore (ptr v : Z).

(** A scripted kernel: [sys_ipc_recv] answers [recv_ret], the [k]-th
    [sys_ipc_try_send] of the run (counting from 0) answers
    [try_send_ret k], [env] holds [env_of], user memory is [mem].  The
    script is arbitrary, so a statement proved for every [Mock] holds
    whatever the kernel answers. *)
Record Mock : Type := mkMock {
  recv_ret : Z;
  try_send_ret : nat -> Z;
  env_of : env_field -> Z;
  attempts : nat;
  mem : Z -> Z;
  calls : list call
}.

Definition log (c : call) (m : Mock) : Mock :=
  mkMock (recv_ret m) (try_send_ret m) (env_of m) (attempts m) (mem m)
         (calls m ++ [c]).

Definition next_attempt (m : Mock) : Mock :=
  mkMock (recv_ret m) (try_send_ret m) (env_of m) (S (attempts m)) (mem m)
         (calls m).

Definition poke (ptr v : Z) (m : Mock) : Mock :=
  mkMock (recv_ret m) (try_send_ret m) (env_of m) (attempts m)
         (fun a => if a =? ptr then v else mem m a) (calls m).

(** A [panic] ends the run: it is kept as an exception that carries the
    state reached and the two arguments of the message. *)
Definition abortE : Type -> Type := exceptE (Mock * (Z * Z)).

Definition aborted {R} (m : Mock) (r to_env : Z) : itree abortE R :=
  Vis (Throw (m, (r, to_env))) (fun v : void => match v with end).

Definition h_mock : ipcE ~> Monads.stateT Mock (itree abortE) :=
  fun _ e m =>
    match e with
    | SysIpcRecv dstva => Ret (log (CRecv dstva) m, recv_ret m)
    | SysIpcTrySend to_env val srcva perm =>
        Ret (next_attempt (log (CTrySend to_env val srcva perm) m),
             try_send_ret m (attempts m))
    | SysYield => Ret (log CYield m, tt)
    | Panic r to_env => aborted m r to_env
    | Store ptr v => Ret (poke ptr v (log (CStore ptr v) m), tt)
    | ReadEnv f => Ret (m, env_of m f)
    end.

(** A fresh scripted kernel: nothing called yet. *)
Definition mock0 (rr : Z) (script : nat -> Z) (ev : env_field -> Z)
  (mm : Z -> Z) : Mock :=
  mkMock rr script ev 0 mm [].

Definition is_yield (c : call) : bool :=
  match c with CYield => true | _ => false end.

Definition is_try_send (c : call) : bool :=
  match c with CTrySend _ _ _ _ => true | _ => false end.

Definition is_store (c : call) : bool :=
  match c with CStore _ _ => true | _ => false end.

(** How many times [sys_yield] and [sys_ipc_try_send] were called. *)
Definition yields (l : list call) : nat := length (filter is_yield l).
Definition deliveries (l : list call) : nat := length (filter is_try_send l).

(** The page argument both functions hand to the kernel. *)
Definition page_arg (pg : Z) : Z := if pg =? NULL then 0xffffffff else pg.

(** [n] rounds of the send loop, as calls. *)
Fixpoint rounds (n : nat) (to_env val srcva perm : Z) : list call :=
  match n with
  | O => []
  | S n' => CTrySend to_env val srcva perm :: CYield
            :: rounds n' to_env val srcva perm
  end.

(** The state after one pass through the body of the send loop, and
    after [n] passes. *)
Definition after_round (to_env val pg perm : Z) (m : Mock) : Mock :=
  log CYield (next_attempt (log (CTrySend to_env val (page_arg pg) perm) m)).

Definition after_rounds (to_env val pg perm : Z) (n : nat) (m : Mock)
  : Mock :=
  mkMock (recv_ret m) (try_send_ret m) (env_of m) (n + attempts m) (mem m)
         (calls m ++ rounds n to_env val (page_arg pg) perm).

(** [if (ptr != NULL) *ptr = v;] as a change of the scripted state, as the
    calls it adds, and as a change of user memory alone. *)
Definition store_opt (ptr v : Z) (m : Mock) : Mock :=
  if ptr =? NULL then m else poke ptr v (log (CStore ptr v) m).

Definition opt_store (ptr v : Z) : list call :=
  if ptr =? NULL then [] else [CStore ptr v].

Definition poke_opt (ptr v : Z) (um : Z -> Z) : Z -> Z :=
  if ptr =? NULL then um else fun a => if a =? ptr then v else um a.

(** State and result of [ipc_recv (from_env_store, pg, perm_store)] over
    the scripted kernel. *)
Definition recv_post (from_env_store pg perm_store : Z) (m : Mock)
  : Mock * Z :=
  let m1 := log (CRecv (page_arg pg)) m in
  if recv_ret m <? 0 then
    (store_opt perm_store 0 (store_opt from_env_store 0 m1), recv_ret m)
  else
    (store_opt perm_store (env_of m env_ipc_perm)
       (store_opt from_env_store (env_of m env_ipc_from) m1),
     to_int32 (env_of m env_ipc_value)).

End Ipc.

(* ===================================================================== *)
(** * The kernel side of IPC *)
(* ===================================================================== *)

(** The system calls behind lib/ipc.c live in kern/syscall.c, which is not
    part of the sources at hand.  They are modelled here from the
    specification (sections 3, 4.1, 4.2, 6 and 7), so that statements
    about a receiver and a sender meeting can be made at all. *)
Module Kernel.
Import Ipc.

(** Modelled from the spec: the process mailbox of section 3, that is the
    IPC fields of [struct Env] (inc/env.h is missing): [receiving],
    [fromId], [value], [destAddress], [perm]. *)
Record Mailbox : Type := mkMailbox {
  receiving : bool;
  fromId : Z;
  value : Z;
  destAddress : Z;
  perm : Z
}.

(** Modelled from the spec: the outcomes of [tryDeliver], section 6. *)
Variant send_outcome : Type := Success | NotReceiving | OtherError.

Section Model.

(** The external page-mapping service (section 1: a fixed external
    service): the address spaces it manages and its one operation,
    [map_page spaces sender srcva target dstva perm], which may refuse. *)
Variable Pages : Type.
Variable map_page : Pages -> Z -> Z -> Z -> Z -> Z -> option Pages.

(** Which addresses the kernel reads as "no page", and which it accepts
    as a page-aligned address in the caller's address space. *)
Variable no_page : Z -> bool.
Variable valid_dest : Z -> bool.

(** Error numbers of inc/error.h. *)
Variables E_IPC_NOT_RECV E_INVAL E_OTHER : Z.

(** Modelled from the spec: the kernel state the IPC calls touch: one
    mailbox per process, which process identities exist, and the address
    spaces. *)
Record Kernel : Type := mkKernel {
  mailbox : Z -> Mailbox;
  live : Z -> bool;
  pages : Pages
}.

(** Modelled from the spec: replacing one mailbox, replacing the address
    spaces. *)
Definition set_mailbox (e : Z) (mb : Mailbox) (K : Kernel) : Kernel :=
  mkKernel (fun x => if x =? e then mb else mailbox K x) (live K) (pages K).

Definition set_pages (pg : Pages) (K : Kernel) : Kernel :=
  mkKernel (mailbox K) (live K) pg.

(** Modelled from the spec: [postReceive] of section 6, behaviour of
    section 4.1: validate the destination; on success mark the caller as
    receiving, record the destination and clear the other mailbox fields
    ([Some] of the new state, after which the caller is suspended); on an
    invalid destination fail at once ([None]), state untouched. *)
Definition postReceive (me dst : Z) (K : Kernel) : option Kernel :=
  if no_page dst || valid_dest dst
  then Some (set_mailbox me (mkMailbox true 0 0 dst 0) K)
  else None.

(** Modelled from the spec: [tryDeliver] of section 6, behaviour of
    section 4.2: an unknown target is an error; a target that is not
    receiving gives [NotReceiving]; otherwise the receiving flag is
    cleared and sender and value are recorded; a page is mapped only when
    the sender supplied one and the target posted a destination, through
    the mapping service, whose refusal is an error; the recorded
    permission is zero whenever no page was mapped. *)
Definition tryDeliver (me target v srcva p : Z) (K : Kernel)
  : Kernel * send_outcome :=
  if negb (live K target) then (K, OtherError)
  else
    let mb := mailbox K target in
    if negb (receiving mb) then (K, NotReceiving)
    else if negb (no_page srcva) && negb (no_page (destAddress mb)) then
      match map_page (pages K) me srcva target (destAddress mb) p with
      | Some pg' =>
          (set_pages pg'
             (set_mailbox target
                (mkMailbox false me v (destAddress mb) p) K),
           Success)
      | None => (K, OtherError)
      end
    else
      (set_mailbox target (mkMailbox false me v (destAddress mb) 0) K,
       Success).

(** Modelled from the spec: the [int] a system call returns for an
    outcome (the encoding of lib/syscall.c and kern/syscall.c). *)
Definition send_code (o : send_outcome) : Z :=
  match o with
  | Success => 0
  | NotReceiving => - E_IPC_NOT_RECV
  | OtherError => - E_OTHER
  end.

(** Modelled from the spec: a [panic] aborts the calling process (section
    4.2); the exception names the process, the error and the target. *)
Definition killE : Type -> Type := exceptE (Z * (Z * Z)).

Definition killed {R} (me r to_env : Z) : itree killE R :=
  Vis (Throw (me, (r, to_env))) (fun v : void => match v with end).

(** Modelled from the spec: the system calls as process [me] sees them
    (lib/syscall.c and the kernel entry are missing).  The state is the
    kernel together with the memory of [me].  [sched] is what the rest
    of the system does to the kernel state between the moment [me] gives
    up the processor and the moment it runs again: [sys_yield] returns
    after it, and so does a [sys_ipc_recv] that was accepted, with 0. *)
Definition h_kernel (me : Z) (sched : Kernel -> itree killE Kernel)
  : ipcE ~> Monads.stateT (Kernel * (Z -> Z)) (itree killE) :=
  fun _ e s =>
    match e with
    | SysIpcRecv dstva =>
        match postReceive me dstva (fst s) with
        | None => Ret (s, - E_INVAL)
        | Some K1 => K2 <- sched K1 ;; Ret ((K2, snd s), 0)
        end
    | SysIpcTrySend to_env val srcva p =>
        let Ko := tryDeliver me to_env val srcva p (fst s) in
        Ret ((fst Ko, snd s), send_code (snd Ko))
    | SysYield => K' <- sched (fst s) ;; Ret ((K', snd s), tt)
    | Panic r to_env => killed me r to_env
    | Store ptr v =>
        Ret ((fst s, fun a => if a =? ptr then v else snd s a), tt)
    | ReadEnv f =>
        Ret (s, match f with
                | env_ipc_from => fromId (mailbox (fst s) me)
                | env_ipc_perm => perm (mailbox (fst s) me)
                | env_ipc_value => value (mailbox (fst s) me)
                end)
    end.

(** Modelled from the spec: the cooperative yield with nobody else
    touching the kernel while the process is off the processor ("control
    eventually returns to this execution context", section 6). *)
Definition idle : Kernel -> itree killE Kernel := fun K => Ret K.

(** Modelled from the spec: while the receiver is suspended the scheduler
    runs process [P] through [prog] and then comes back (section 2:
    "a receiver posts state then suspends; a sender ... delivers and wakes
    the receiver"). *)
Definition run_other (P : Z) (prog : itree ipcE unit) (memP : Z -> Z)
  : Kernel -> itree killE Kernel :=
  fun K =>
    sr <- interp_state (h_kernel P idle) prog (K, memP) ;;
    Ret (fst (fst sr)).

End Model.

End Kernel.

(* ===================================================================== *)
(** * kern/monitor.c: the stack backtrace *)
(* ===================================================================== *)

Module Monitor.

(** The fields of [struct Eipdebuginfo] (kern/kdebug.h) that
    [mon_backtrace] prints. *)
Record Eipdebuginfo : Type := mkEipdebuginfo {
  eip_file : string;
  eip_line : Z;
  eip_fn_name : string;
  eip_fn_namelen : Z;
  eip_fn_addr : Z
}.

(** An argument of [cprintf]. *)
Variant arg : Type :=
| AInt (z : Z)
| AStr (s : string).

(** What [mon_backtrace] does besides local control flow: read the frame
    pointer and its own return address, read a word of memory,
    ask the debug information for an address, print. *)
Variant monE : Type -> Type :=
| ReadEbp : monE Z
| ReadEip : monE Z
| Load (addr : Z) : monE Z
| DebuginfoEip (eip : Z) : monE Eipdebuginfo
| Cprintf (fmt : string) (args : list arg) : monE unit.

Definition read_ebp : itree monE Z := ITree.trigger ReadEbp.
Definition read_eip : itree monE Z := ITree.trigger ReadEip.

(** [*(unsigned int * ) addr]. *)
Definition load (addr : Z) : itree monE Z := ITree.trigger (Load addr).

(** [debuginfo_eip(eip, &eip_info)]; the [int] it returns is ignored. *)
Definition debuginfo_eip (eip : Z) : itree monE Eipdebuginfo :=
  ITree.trigger (DebuginfoEip eip).

Definition cprintf (fmt : string) (args : list arg) : itree monE unit :=
  ITree.trigger (Cprintf fmt args).

(** The newline character of the C format strings. *)
Definition nl : string := String (ascii_of_nat 10) EmptyString.

Definition fmt_header : string := "Stack backtrace:" ++ nl.
Definition fmt_frame : string := "  ebp %x eip %x  args".
Definition fmt_arg : string := " %08x".
Definition fmt_where : string := "    %s:%u: %.*s+%u" ++ nl.

(** Lines 78-79: [for (i = 0; i < 5; ++i) cprintf(" %08x", ...)]. *)
Definition print_args (ebp : Z) : itree monE unit :=
  ITree.iter
    (fun i : Z =>
       if i <? 5 then
         w <- load (wrap32 (ebp + 8 + 4 * i)) ;;
         cprintf fmt_arg [AInt w] ;;
         Ret (inl (wrap32 (i + 1)))
       else Ret (inr tt))
    0.

(** One test of the [while] condition and, if it holds, one pass through
    the body, lines 75-93: [inl ebp'] to go on with the caller's frame,
    [inr tt] when [ebp] is 0. *)
Definition backtrace_step (ebp : Z) : itree monE (Z + unit) :=
  if negb (ebp =? 0) then
    eip <- load (wrap32 (ebp + 4)) ;;
    cprintf fmt_frame [AInt ebp; AInt eip] ;;
    print_args ebp ;;
    cprintf nl [] ;;
    eip_info <- debuginfo_eip eip ;;
    cprintf fmt_where
      [AStr (eip_file eip_info); AInt (eip_line eip_info);
       AInt (eip_fn_namelen eip_info); AStr (eip_fn_name eip_info);
       AInt (wrap32 (eip - eip_fn_addr eip_info))] ;;
    ebp' <- load ebp ;;
    Ret (inl ebp')
  else Ret (inr tt).

(** [mon_backtrace], kern/monitor.c lines 67-96. *)
Definition mon_backtrace (argc argv tf : Z) : itree monE Z :=
  ebp <- read_ebp ;;
  eip <- read_eip ;;
  cprintf fmt_header [] ;;
  ITree.iter backtrace_step ebp ;;
  Ret 0.

(* --------------------------------------------------------------------- *)
(** ** The machine the monitor runs on *)
(* --------------------------------------------------------------------- *)

(** What the walk does to the outside, in order. *)
Variant action : Type :=
| ALoad (addr : Z)
| AResolve (eip : Z)
| APrint (fmt : string) (args : list arg).

(** The frame pointer and return address at the call, memory as the word
    read at each address, the debug information, and what was done so
    far. *)
Record Machine : Type := mkMachine {
  reg_ebp : Z;
  ret_eip : Z;
  memory : Z -> Z;
  debuginfo : Z -> Eipdebuginfo;
  trace : list action
}.

Definition did (a : action) (s : Machine) : Machine :=
  mkMachine (reg_ebp s) (ret_eip s) (memory s) (debuginfo s) (trace s ++ [a]).

Definition did_all (l : list action) (s : Machine) : Machine :=
  mkMachine (reg_ebp s) (ret_eip s) (memory s) (debuginfo s) (trace s ++ l).

Definition h_mon : monE ~> Monads.stateT Machine (itree void1) :=
  fun _ e s =>
    match e with
    | ReadEbp => Ret (s, reg_ebp s)
    | ReadEip => Ret (s, ret_eip s)
    | Load addr => Ret (did (ALoad addr) s, memory s addr)
    | DebuginfoEip eip => Ret (did (AResolve eip) s, debuginfo s eip)
    | Cprintf fmt args => Ret (did (APrint fmt args) s, tt)
    end.

(** What reached the console. *)
Fixpoint console (l : list action) : list (string * list arg) :=
  match l with
  | [] => []
  | APrint fmt args :: l' => (fmt, args) :: console l'
  | _ :: l' => console l'
  end.

(** The addresses read. *)
Fixpoint loads (l : list action) : list Z :=
  match l with
  | [] => []
  | ALoad a :: l' => a :: loads l'
  | _ :: l' => loads l'
  end.

(** The frame pointers of a chain that reaches 0 within [n] frames. *)
Fixpoint frame_chain (mem : Z -> Z) (n : nat) (ebp : Z) : option (list Z) :=
  if ebp =? 0 then Some []
  else match n with
       | O => None
       | S n' => option_map (cons ebp) (frame_chain mem n' (mem ebp))
       end.

(** The frame descriptor of the specification (section 3): frame pointer,
    return address, five argument words, resolved location. *)
Record FrameDescriptor : Type := mkFrameDescriptor {
  framePointer : Z;
  returnAddress : Z;
  argumentWords : list Z;
  resolved : Eipdebuginfo
}.

(** The descriptor of the frame at [ebp], as the specification words it:
    return address at [ebp+4], argument words at [ebp+8] ... [ebp+24]. *)
Definition descriptor_at (mem : Z -> Z) (dbg : Z -> Eipdebuginfo) (ebp : Z)
  : FrameDescriptor :=
  mkFrameDescriptor ebp (mem (wrap32 (ebp + 4)))
    [mem (wrap32 (ebp + 8)); mem (wrap32 (ebp + 12)); mem (wrap32 (ebp + 16));
     mem (wrap32 (ebp + 20)); mem (wrap32 (ebp + 24))]
    (dbg (mem (wrap32 (ebp + 4)))).

(** The two console lines of a descriptor (section 6), as [cprintf]
    calls. *)
Definition descriptor_lines (d : FrameDescriptor) : list (string * list arg) :=
  (fmt_frame, [AInt (framePointer d); AInt (returnAddress d)])
  :: List.map (fun w => (fmt_arg, [AInt w])) (argumentWords d)
  ++ [(nl, []);
      (fmt_where,
       [AStr (eip_file (resolved d)); AInt (eip_line (resolved d));
        AInt (eip_fn_namelen (resolved d)); AStr (eip_fn_name (resolved d));
        AInt (wrap32 (returnAddress d - eip_fn_addr (resolved d)))])].

(** Everything one pass through the loop body does for the frame at
    [ebp]. *)
Definition frame_actions (mem : Z -> Z) (dbg : Z -> Eipdebuginfo) (ebp : Z)
  : list action :=
  let eip := mem (wrap32 (ebp + 4)) in
  let info := dbg eip in
  [ALoad (wrap32 (ebp + 4));
   APrint fmt_frame [AInt ebp; AInt eip];
   ALoad (wrap32 (ebp + 8));  APrint fmt_arg [AInt (mem (wrap32 (ebp + 8)))];
   ALoad (wrap32 (ebp + 12)); APrint fmt_arg [AInt (mem (wrap32 (ebp + 12)))];
   ALoad (wrap32 (ebp + 16)); APrint fmt_arg [AInt (mem (wrap32 (ebp + 16)))];
   ALoad (wrap32 (ebp + 20)); APrint fmt_arg [AInt (mem (wrap32 (ebp + 20)))];
   ALoad (wrap32 (ebp + 24)); APrint fmt_arg [AInt (mem (wrap32 (ebp + 24)))];
   APrint nl [];
   AResolve eip;
   APrint fmt_where
     [AStr (eip_file info); AInt (eip_line info);
      AInt (eip_fn_namelen info); AStr (eip_fn_name info);
      AInt (wrap32 (eip - eip_fn_addr info))];
   ALoad ebp].

End Monitor.

(* ===================================================================== *)
(** * kern/monitor.c: the commands and the command interpreter *)
(* ===================================================================== *)

Module Shell.
Import Monitor.

(** The functions the command table points to. *)
Variant mon_fn : Type :=
| Fn_mon_help
| Fn_mon_kerninfo
| Fn_mon_backtrace
| Fn_mon_alloc_page
| Fn_mon_page_status
| Fn_mon_free_page.

(** [struct Command], lines 20-25. *)
Record Command : Type := mkCommand {
  name : string;
  desc : string;
  func : mon_fn
}.

(** [commands], lines 27-35. *)
Definition commands : list Command :=
  [mkCommand "help" "Display this list of commands" Fn_mon_help;
   mkCommand "kerninfo" "Display information about the kernel" Fn_mon_kerninfo;
   mkCommand "backtrace" "Display the stack trace" Fn_mon_backtrace;
   mkCommand "alloc_page" "Allocate a page in the memory" Fn_mon_alloc_page;
   mkCommand "page_status"
     "Show status of a page with given physical address" Fn_mon_page_status;
   mkCommand "free_page" "Free a page with given physical address"
     Fn_mon_free_page].

(** [CMDBUF_SIZE] is not used by the code; [MAXARGS], line 147. *)
Definition MAXARGS : Z := 16.

(** What the commands and the interpreter call outside this file:
    [page_alloc (&pp)] (its result and the page it stored), [page2pa],
    [strtol (s, NULL, base)], the global [boot_pgdir], the macro [KADDR]
    (which may panic), [page_lookup (pgdir, va, NULL)], [page_remove],
    [print_trapframe] and [readline] (NULL or the line buffer). *)
Variant cmdE : Type -> Type :=
| PageAlloc : cmdE (Z * Z)
| Page2pa (pp : Z) : cmdE Z
| Strtol (s : string) (base : Z) : cmdE Z
| ReadBootPgdir : cmdE Z
| Kaddr (pa : Z) : cmdE Z
| PageLookup (pgdir va : Z) : cmdE Z
| PageRemove (pgdir va : Z) : cmdE unit
| PrintTrapframe (tf : Z) : cmdE unit
| Readline (prompt : string) : cmdE (option (list ascii)).

(** The monitor uses the console and the stack reads of [mon_backtrace]
    together with the calls above. *)
Definition shE : Type -> Type := monE +' cmdE.

Definition kprintf (fmt : string) (args : list arg) : itree shE unit :=
  trigger (Cprintf fmt args).

(** Characters of the C source. *)
Definition NUL : ascii := ascii_of_nat 0.
Definition tab : string := String (ascii_of_nat 9) EmptyString.

(** [WHITESPACE], line 146: tab, carriage return, newline, space. *)
Definition WHITESPACE : string :=
  String (ascii_of_nat 9) (String (ascii_of_nat 13)
    (String (ascii_of_nat 10) (String (ascii_of_nat 32) EmptyString))).

Definition fmt_help : string := "%s - %s" ++ nl.
Definition fmt_special : string := "Special kernel symbols:" ++ nl.
Definition fmt_start : string := "  _start %08x (virt)  %08x (phys)" ++ nl.
Definition fmt_etext : string := "  etext  %08x (virt)  %08x (phys)" ++ nl.
Definition fmt_edata : string := "  edata  %08x (virt)  %08x (phys)" ++ nl.
Definition fmt_end : string := "  end    %08x (virt)  %08x (phys)" ++ nl.
Definition fmt_footprint : string :=
  "Kernel executable memory footprint: %dKB" ++ nl.
Definition fmt_no_mem : string := "mon_alloc_page: No memory available." ++ nl.
Definition fmt_pa : string := tab ++ "%p" ++ nl.
Definition fmt_need_addr : string :=
  "Please provide the physical address in hex format." ++ nl.
Definition fmt_assigned : string := tab ++ "assigned" ++ nl.
Definition fmt_free : string := tab ++ "free" ++ nl.
Definition fmt_too_many : string := "Too many arguments (max %d)" ++ nl.
Definition fmt_unknown : string := "Unknown command '%s'" ++ nl.
Definition fmt_welcome : string := "Welcome to the JOS kernel monitor!" ++ nl.
Definition fmt_type_help : string :=
  "Type 'help' for a list of commands." ++ nl.
Definition prompt : string := "K> ".

(** The string a [char * ] into a character array points to: the
    characters up to the first NUL (the array is followed by one). *)
Fixpoint cstring (l : list ascii) : list ascii :=
  match l with
  | [] => []
  | c :: l' => if Ascii.eqb c NUL then [] else c :: cstring l'
  end.

(** The strings [argv[0]], [argv[1]], ... for pointers [argv] (as offsets)
    into the array [mem]. *)
Definition arg_strings (mem : list ascii) (argv : list nat) : list string :=
  List.map (fun off => string_of_list_ascii (cstring (skipn off mem))) argv.

(** What the argument loop of [runcmd] ends with: the early return of
    line 169, or the array as it was left and the pointers stored. *)
Variant parsed : Type :=
| TooMany (mem : list ascii)
| Args (mem : list ascii) (argv : list nat).

Section Code.

(** [KERNBASE] (inc/memlayout.h), [E_NO_MEM] (inc/error.h), the linker
    symbols [_start], [etext], [edata], [end], and the address of the
    local array [argv] of [runcmd], which the commands receive. *)
Variables KERNBASE E_NO_MEM : Z.
Variables _start etext edata end_ : Z.
Variable argv_addr : Z.

(** [strchr] and [strcmp] of lib/string.c: whether the character occurs
    in the string, and the comparison result. *)
Variable strchr : string -> ascii -> bool.
Variable strcmp : string -> string -> Z.

(** [mon_help], lines 42-50. *)
Fixpoint help_lines (cs : list Command) : itree shE unit :=
  match cs with
  | [] => Ret tt
  | c :: cs' => kprintf fmt_help [AStr (name c); AStr (desc c)] ;;
                help_lines cs'
  end.

Definition mon_help (argc : Z) (argv : list string) (tf : Z) : itree shE Z :=
  help_lines commands ;;
  Ret 0.

(** [(end-_start+1023)/1024], line 63: [int] arithmetic, the division
    truncates. *)
Definition footprint_kb : Z :=
  Z.quot (to_int32 (to_int32 (end_ - _start) + 1023)) 1024.

(** [mon_kerninfo], lines 52-65. *)
Definition mon_kerninfo (argc : Z) (argv : list string) (tf : Z)
  : itree shE Z :=
  kprintf fmt_special [] ;;
  kprintf fmt_start [AInt _start; AInt (wrap32 (_start - KERNBASE))] ;;
  kprintf fmt_etext [AInt etext; AInt (wrap32 (etext - KERNBASE))] ;;
  kprintf fmt_edata [AInt edata; AInt (wrap32 (edata - KERNBASE))] ;;
  kprintf fmt_end [AInt end_; AInt (wrap32 (end_ - KERNBASE))] ;;
  kprintf fmt_footprint [AInt footprint_kb] ;;
  Ret 0.

(** [mon_alloc_page], lines 98-109. *)
Definition mon_alloc_page (argc : Z) (argv : list string) (tf : Z)
  : itree shE Z :=
  rp <- trigger PageAlloc ;;
  if fst rp =? - E_NO_MEM then
    kprintf fmt_no_mem [] ;;
    Ret 1
  else
    pa <- trigger (Page2pa (snd rp)) ;;
    kprintf fmt_pa [AInt pa] ;;
    Ret 0.

(** [mon_page_status], lines 111-127. *)
Definition mon_page_status (argc : Z) (argv : list string) (tf : Z)
  : itree shE Z :=
  if argc <? 2 then
    kprintf fmt_need_addr [] ;;
    Ret 1
  else
    addr <- trigger (Strtol (nth 1 argv EmptyString) 16) ;;
    pgdir <- trigger ReadBootPgdir ;;
    va <- trigger (Kaddr (wrap32 addr)) ;;
    pp <- trigger (PageLookup pgdir va) ;;
    (if negb (pp =? NULL) then kprintf fmt_assigned []
     else kprintf fmt_free []) ;;
    Ret 0.

(** [mon_free_page], lines 129-142. *)
Definition mon_free_page (argc : Z) (argv : list string) (tf : Z)
  : itree shE Z :=
  if argc <? 2 then
    kprintf fmt_need_addr [] ;;
    Ret 1
  else
    addr <- trigger (Strtol (nth 1 argv EmptyString) 16) ;;
    pgdir <- trigger ReadBootPgdir ;;
    va <- trigger (Kaddr (wrap32 addr)) ;;
    trigger (PageRemove pgdir va) ;;
    Ret 0.

(** [commands[i].func(argc, argv, tf)]. *)
Definition call (f : mon_fn) (argc : Z) (argv : list string) (tf : Z)
  : itree shE Z :=
  match f with
  | Fn_mon_help => mon_help argc argv tf
  | Fn_mon_kerninfo => mon_kerninfo argc argv tf
  | Fn_mon_backtrace => translate subevent (mon_backtrace argc argv_addr tf)
  | Fn_mon_alloc_page => mon_alloc_page argc argv tf
  | Fn_mon_page_status => mon_page_status argc argv tf
  | Fn_mon_free_page => mon_free_page argc argv tf
  end.

(** [*buf && strchr(WHITESPACE, *buf)], the condition of line 161. *)
Definition is_sep (c : ascii) : bool :=
  negb (Ascii.eqb c NUL) && strchr WHITESPACE c.

(** [*buf && !strchr(WHITESPACE, *buf)], the condition of line 172. *)
Definition in_word (c : ascii) : bool :=
  negb (Ascii.eqb c NUL) && negb (strchr WHITESPACE c).

(** Lines 161-162, [while (...) *buf++ = 0;], from the characters at
    [buf] on: what was written, and the characters left at [buf]. *)
Fixpoint gobble (rest : list ascii) : list ascii * list ascii :=
  match rest with
  | [] => ([], [])
  | c :: rest' =>
      if is_sep c
      then let zr := gobble rest' in (NUL :: fst zr, snd zr)
      else ([], rest)
  end.

(** Lines 172-173, [while (...) buf++;]: the characters passed, and the
    characters left at [buf]. *)
Fixpoint skip_word (rest : list ascii) : list ascii * list ascii :=
  match rest with
  | [] => ([], [])
  | c :: rest' =>
      if in_word c
      then let wr := skip_word rest' in (c :: fst wr, snd wr)
      else ([], rest)
  end.

(** The loop of lines 159-174.  [done] is the array before [buf], [rest]
    the array from [buf] on (a NUL follows it), [argv] the pointers
    stored so far; [fuel] bounds the number of passes. *)
Fixpoint parse_loop (fuel : nat) (done rest : list ascii) (argv : list nat)
  : option parsed :=
  match fuel with
  | O => None
  | S fuel' =>
      let zr := gobble rest in
      let done1 := done ++ fst zr in
      match snd zr with
      | [] => Some (Args done1 argv)
      | c :: _ =>
          if Ascii.eqb c NUL then Some (Args (done1 ++ snd zr) argv)
          else if Z.of_nat (length argv) =? MAXARGS - 1
               then Some (TooMany (done1 ++ snd zr))
               else
                 let wr := skip_word (snd zr) in
                 parse_loop fuel' (done1 ++ fst wr) (snd wr)
                            (argv ++ [length done1])
      end
  end.

(** The argument loop on a whole line: one pass per argument and one to
    see the end. *)
Definition parse (buf : list ascii) : option parsed :=
  parse_loop (S (length buf)) [] buf [].

(** Lines 180-185: the first command of that name, or the complaint. *)
Fixpoint lookup (cs : list Command) (argc : Z) (argv : list string) (tf : Z)
  : itree shE Z :=
  match cs with
  | [] => kprintf fmt_unknown [AStr (nth 0 argv EmptyString)] ;; Ret 0
  | c :: cs' =>
      if strcmp (nth 0 argv EmptyString) (name c) =? 0
      then call (func c) argc argv tf
      else lookup cs' argc argv tf
  end.

(** [runcmd], lines 149-186.  A loop that has not ended is a run that
    does not end. *)
Definition runcmd (buf : list ascii) (tf : Z) : itree shE Z :=
  match parse buf with
  | None => ITree.spin
  | Some (TooMany _) => kprintf fmt_too_many [AInt MAXARGS] ;; Ret 0
  | Some (Args mem argv) =>
      let argc := Z.of_nat (length argv) in
      if argc =? 0 then Ret 0
      else lookup commands argc (arg_strings mem argv) tf
  end.

(** One pass through the loop of lines 199-204. *)
Definition monitor_body (tf : Z) (_ : unit) : itree shE (unit + unit) :=
  buf <- trigger (Readline prompt) ;;
  match buf with
  | None => Ret (inl tt)
  | Some b =>
      r <- runcmd b tf ;;
      if r <? 0 then Ret (inr tt) else Ret (inl tt)
  end.

(** [monitor], lines 188-205. *)
Definition monitor (tf : Z) : itree shE unit :=
  kprintf fmt_welcome [] ;;
  kprintf fmt_type_help [] ;;
  (if negb (tf =? NULL) then trigger (PrintTrapframe tf) else Ret tt) ;;
  ITree.iter (monitor_body tf) tt.

End Code.

(** Reference definitions for the argument loop, character by character.
    [sep] says which characters other than NUL separate words. *)

(** The characters of [WHITESPACE]. *)
Definition is_space (c : ascii) : bool :=
  existsb (Ascii.eqb c) (list_ascii_of_string WHITESPACE).

(** A character of the array after the loop: as it was, or NUL where a
    whitespace character was. *)
Definition kept_or_zeroed (a b : ascii) : Prop :=
  b = a \/ (is_space a = true /\ b = NUL).

(** The words of a line: the maximal runs of characters that are neither
    separators nor NUL, up to the first NUL.  [cur] is the word being
    read. *)
Definition flush (cur : list ascii) : list (list ascii) :=
  match cur with [] => [] | _ => [cur] end.

Fixpoint split_words (sep : ascii -> bool) (cur : list ascii)
  (l : list ascii) : list (list ascii) :=
  match l with
  | [] => flush cur
  | c :: l' =>
      if Ascii.eqb c NUL then flush cur
      else if sep c then flush cur ++ split_words sep [] l'
      else split_words sep (cur ++ [c]) l'
  end.

(** The line with every separator before the first NUL replaced by NUL. *)
Fixpoint zero_seps (sep : ascii -> bool) (l : list ascii) : list ascii :=
  match l with
  | [] => []
  | c :: l' =>
      if Ascii.eqb c NUL then l
      else (if sep c then NUL else c) :: zero_seps sep l'
  end.

(** The offsets at which the words start; [pos] is the offset of [l],
    [inw] says whether a word is being read. *)
Fixpoint word_starts (sep : ascii -> bool) (pos : nat) (inw : bool)
  (l : list ascii) : list nat :=
  match l with
  | [] => []
  | c :: l' =>
      if Ascii.eqb c NUL then []
      else if sep c then word_starts sep (S pos) false l'
      else (if inw then [] else [pos]) ++ word_starts sep (S pos) true l'
  end.

(** The array as the argument loop left it. *)
Definition mem_of (p : parsed) : list ascii :=
  match p with
  | TooMany mem => mem
  | Args mem _ => mem
  end.

(** Plain implementations of the two library functions, for worked
    runs. *)
Definition demo_strchr (s : string) (c : ascii) : bool :=
  existsb (Ascii.eqb c) (list_ascii_of_string s).

Definition demo_strcmp (a b : string) : Z :=
  if String.eqb a b then 0 else 1.

(** The interpreter with these and with addresses of a small kernel
    image. *)
Definition demo_call : mon_fn -> Z -> list string -> Z -> itree shE Z :=
  call 0xf0000000 4 0xf010000c 0xf0101a75 0xf0112300 0xf0112960 0xf010ff00.

Definition demo_runcmd : list ascii -> Z -> itree shE Z :=
  runcmd 0xf0000000 4 0xf010000c 0xf0101a75 0xf0112300 0xf0112960 0xf010ff00
         demo_strchr demo_strcmp.

Definition demo_monitor : Z -> itree shE unit :=
  monitor 0xf0000000 4 0xf010000c 0xf0101a75 0xf0112300 0xf0112960 0xf010ff00
          demo_strchr demo_strcmp.

(** Lines of 16 words, of two words, and a stack whose only frame points
    to itself. *)
Definition demo_line16 : list ascii :=
  list_ascii_of_string "a b c d e f g h i j k l m n o p".

Definition demo_line2 : list ascii :=
  list_ascii_of_string "page_status  1000".

Definition demo_loop_machine : Machine :=
  mkMachine 4096 0 (fun _ => 4096)
    (fun _ => mkEipdebuginfo "<unknown>" 0 "<unknown>" 9 0) [].

End Shell.

(* ===================================================================== *)
(** * Concrete data for worked runs *)
(* ===================================================================== *)

Module Demo.

(** A small instance of the kernel model: address spaces are lists of
    mappings (target, address, permission), the mapping service grants
    read-write at most, addresses from [UTOP] up mean "no page", and a
    destination below has to be page-aligned. *)
Definition demo_map_page (l : list (Z * Z * Z)) (sender srcva target dstva p : Z)
  : option (list (Z * Z * Z)) :=
  if Z.land p 7 =? p then Some ((target, dstva, p) :: l) else None.

Definition demo_no_page (a : Z) : bool := 0xeec00000 <=? a.

Definition demo_valid_dest (a : Z) : bool := a mod 4096 =? 0.

Definition demo_kernel : Kernel.Kernel (list (Z * Z * Z)) :=
  Kernel.mkKernel _ (fun _ => Kernel.mkMailbox false 0 0 0 0)
                  (fun e => (e =? 4097) || (e =? 4098)) [].

(** A synthetic stack of depth 3: frames at 0xf010ff18 (innermost),
    0xf010ff38 and 0xf010ff58, whose saved frame pointer is 0.  Each
    frame holds the saved frame pointer, the return address and five
    argument words. *)
Definition demo_words : list (Z * Z) :=
  [(0xf010ff18, 0xf010ff38); (0xf010ff1c, 0xf0100a62);
   (0xf010ff20, 1); (0xf010ff24, 2); (0xf010ff28, 3);
   (0xf010ff2c, 4); (0xf010ff30, 5);
   (0xf010ff38, 0xf010ff58); (0xf010ff3c, 0xf0100b10);
   (0xf010ff40, 11); (0xf010ff44, 12); (0xf010ff48, 13);
   (0xf010ff4c, 14); (0xf010ff50, 15);
   (0xf010ff58, 0); (0xf010ff5c, 0xf010003e);
   (0xf010ff60, 21); (0xf010ff64, 22); (0xf010ff68, 23);
   (0xf010ff6c, 24); (0xf010ff70, 25)].

Definition word_at (l : list (Z * Z)) (a : Z) : Z :=
  match find (fun p => fst p =? a) l with
  | Some p => snd p
  | None => 0
  end.

Definition demo_debuginfo (eip : Z) : Monitor.Eipdebuginfo :=
  if eip <? 0xf0100a00
  then Monitor.mkEipdebuginfo "kern/entry.S" 83 "<unknown>" 9 0xf010003e
  else Monitor.mkEipdebuginfo "kern/monitor.c" 143 "monitor" 7 0xf0100a00.

Definition demo_machine : Monitor.Machine :=
  Monitor.mkMachine 0xf010ff18 0xf0100a62 (word_at demo_words)
                    demo_debuginfo [].

End Demo.

(* ===================================================================== *)
(** * Properties of lib/ipc.c *)
(* ===================================================================== *)

Module IpcFacts.
Import Ipc Demo.

Section SendLoop.

Variable E_IPC_NOT_RECV : Z.
Variables to_env val pg perm : Z.

Local Abbreviation body := (ipc_send_body E_IPC_NOT_RECV to_env val pg perm).
Local Abbreviation after_round := (Ipc.after_round to_env val pg perm).
Local Abbreviation after_rounds := (Ipc.after_rounds to_env val pg perm).

Lemma interp_body (m : Mock) :
  interp_state h_mock (body tt) m
  ≈ Ret (after_round m,
         if try_send_ret m (attempts m) =? - E_IPC_NOT_RECV
         then inl tt else inr (try_send_ret m (attempts m))).
Proof.
  unfold ipc_send_body, sys_ipc_try_send, sys_yield, Ipc.after_round, page_arg.
  rewrite interp_state_bind.
  destruct (pg =? NULL);
    rewrite interp_state_trigger; cbn; rewrite bind_ret_l; cbn;
    rewrite interp_state_bind, interp_state_trigger; cbn; rewrite bind_ret_l; cbn;
    destruct (_ =? _); rewrite interp_state_ret; reflexivity.
Qed.

Local Abbreviation loop := (ITree.iter body tt).

Lemma interp_loop_retry (m : Mock) :
  try_send_ret m (attempts m) = - E_IPC_NOT_RECV ->
  interp_state h_mock loop m ≈ interp_state h_mock loop (after_round m).
Proof.
  intros Hr. rewrite unfold_iter at 1.
  rewrite interp_state_bind, interp_body, bind_ret_l. cbn [fst snd].
  rewrite Hr, Z.eqb_refl. rewrite interp_state_tau, tau_eutt. reflexivity.
Qed.

Lemma interp_loop_exit (m : Mock) :
  try_send_ret m (attempts m) <> - E_IPC_NOT_RECV ->
  interp_state h_mock loop m
  ≈ Ret (after_round m, try_send_ret m (attempts m)).
Proof.
  intros Hr. rewrite unfold_iter.
  rewrite interp_state_bind, interp_body, bind_ret_l. cbn [fst snd].
  apply Z.eqb_neq in Hr. rewrite Hr. rewrite interp_state_ret. reflexivity.
Qed.

Lemma rounds_snoc (n : nat) (a b c d : Z) :
  rounds (S n) a b c d = rounds n a b c d ++ [CTrySend a b c d; CYield].
Proof.
  induction n as [|n IH]; [reflexivity|].
  cbn [rounds app] in *. rewrite <- IH. reflexivity.
Qed.

Lemma after_rounds_0 (m : Mock) : after_rounds 0 m = m.
Proof.
  destruct m; unfold after_rounds; cbn. rewrite app_nil_r. reflexivity.
Qed.

Lemma after_rounds_S (n : nat) (m : Mock) :
  after_round (after_rounds n m) = after_rounds (S n) m.
Proof.
  unfold after_round, after_rounds, log, next_attempt; cbn [recv_ret
    try_send_ret env_of attempts mem calls].
  rewrite rounds_snoc, <- !app_assoc. reflexivity.
Qed.

Lemma interp_loop_retries (n : nat) (m : Mock) :
  (forall k, (k < n)%nat ->
             try_send_ret m (k + attempts m) = - E_IPC_NOT_RECV) ->
  interp_state h_mock loop m ≈ interp_state h_mock loop (after_rounds n m).
Proof.
  induction n as [|n IH]; intros Hs.
  - rewrite after_rounds_0. reflexivity.
  - rewrite IH by (intros k Hk; apply Hs; lia).
    rewrite interp_loop_retry by (apply Hs; lia).
    rewrite after_rounds_S. reflexivity.
Qed.

Lemma interp_loop_finish (n : nat) (m : Mock) :
  (forall k, (k < n)%nat ->
             try_send_ret m (k + attempts m) = - E_IPC_NOT_RECV) ->
  try_send_ret m (n + attempts m) <> - E_IPC_NOT_RECV ->
  interp_state h_mock loop m
  ≈ Ret (after_rounds (S n) m, try_send_ret m (n + attempts m)).
Proof.
  intros Hs Hn. rewrite (interp_loop_retries n m Hs).
  rewrite interp_loop_exit by exact Hn.
  rewrite after_rounds_S. reflexivity.
Qed.

(** Whatever the loop returns, it returns after some number of
    not-receiving answers followed by one answer that is something else. *)
Lemma interp_loop_leaf (m : Mock) (sr : Mock * Z) :
  Leaf sr (interp_state h_mock loop m) ->
  exists n : nat,
    (forall k, (k < n)%nat ->
               try_send_ret m (k + attempts m) = - E_IPC_NOT_RECV) /\
    try_send_ret m (n + attempts m) <> - E_IPC_NOT_RECV /\
    sr = (after_rounds (S n) m, try_send_ret m (n + attempts m)).
Proof.
  intros H. unfold loop in H.
  rewrite (interp_state_iter'_eutt h_mock body
             (fun _ s => Ret (after_round s,
                if try_send_ret s (attempts s) =? - E_IPC_NOT_RECV
                then inl tt else inr (try_send_ret s (attempts s))))) in H
    by (intros [] s; apply interp_body).
  unfold Basics.iter, MonadIter_stateT0, Basics.iter, MonadIter_itree in H.
  revert sr H.
  apply (Leaf_iter_inv _ _
    (fun si => exists n : nat, fst si = after_rounds n m /\
       forall k, (k < n)%nat ->
                 try_send_ret m (k + attempts m) = - E_IPC_NOT_RECV)
    (fun sr => exists n : nat,
       (forall k, (k < n)%nat ->
                  try_send_ret m (k + attempts m) = - E_IPC_NOT_RECV) /\
       try_send_ret m (n + attempts m) <> - E_IPC_NOT_RECV /\
       sr = (after_rounds (S n) m, try_send_ret m (n + attempts m)))).
  - intros [s []] r (n & Hs & Hpre) Hr. cbn [fst snd] in *. subst s.
    change (attempts (after_rounds n m)) with (n + attempts m)%nat in Hr.
    change (try_send_ret (after_rounds n m)) with (try_send_ret m) in Hr.
    unfold bind, ret, Monad_itree in Hr.
    rewrite bind_ret_l in Hr. cbn [fst snd] in Hr.
    apply Leaf_Ret_inv in Hr. subst r.
    destruct (Z.eqb_spec (try_send_ret m (n + attempts m)) (- E_IPC_NOT_RECV))
      as [Heq|Hne]; cbn.
    + exists (S n). split; [apply after_rounds_S|].
      intros k Hk. destruct (Nat.eq_dec k n) as [->|]; [exact Heq|].
      apply Hpre. lia.
    + exists n. rewrite after_rounds_S. auto.
  - exists O. cbn [fst]. split; [symmetry; apply after_rounds_0|].
    intros k Hk. lia.
Qed.

Lemma interp_panic (m : Mock) (r e : Z) :
  interp_state h_mock (panic r e : itree ipcE unit) m ≈ aborted m r e.
Proof.
  unfold panic, aborted. rewrite interp_state_vis. cbn.
  unfold aborted. rewrite bind_vis. apply eqit_Vis. intros [].
Qed.

Local Abbreviation send := (ipc_send E_IPC_NOT_RECV to_env val pg perm).

Lemma interp_send_unfold (m : Mock) :
  interp_state h_mock send m
  ≈ ITree.bind (interp_state h_mock loop m)
      (fun sr => if snd sr <? 0 then aborted (fst sr) (snd sr) to_env
                 else Ret (fst sr, tt)).
Proof.
  unfold send, ipc_send. rewrite interp_state_bind.
  apply eutt_eq_bind. intros [s r]. cbn.
  destruct (r <? 0).
  - apply interp_panic.
  - rewrite interp_state_ret. reflexivity.
Qed.

Lemma interp_send_retries (n : nat) (m : Mock) :
  (forall k, (k < n)%nat ->
             try_send_ret m (k + attempts m) = - E_IPC_NOT_RECV) ->
  interp_state h_mock send m ≈ interp_state h_mock send (after_rounds n m).
Proof.
  intros Hs. rewrite !interp_send_unfold.
  rewrite (interp_loop_retries n m Hs). reflexivity.
Qed.

Lemma interp_send_returns (n : nat) (m : Mock) :
  (forall k, (k < n)%nat ->
             try_send_ret m (k + attempts m) = - E_IPC_NOT_RECV) ->
  try_send_ret m (n + attempts m) <> - E_IPC_NOT_RECV ->
  0 <= try_send_ret m (n + attempts m) ->
  interp_state h_mock send m ≈ Ret (after_rounds (S n) m, tt).
Proof.
  intros Hs Hn Hok. rewrite interp_send_unfold.
  rewrite (interp_loop_finish n m Hs Hn), bind_ret_l. cbn.
  apply Z.ltb_ge in Hok. rewrite Hok. reflexivity.
Qed.

Lemma interp_send_panics (n : nat) (m : Mock) :
  (forall k, (k < n)%nat ->
             try_send_ret m (k + attempts m) = - E_IPC_NOT_RECV) ->
  try_send_ret m (n + attempts m) <> - E_IPC_NOT_RECV ->
  try_send_ret m (n + attempts m) < 0 ->
  interp_state h_mock send m
  ≈ aborted (after_rounds (S n) m) (try_send_ret m (n + attempts m)) to_env.
Proof.
  intros Hs Hn Hbad. rewrite interp_send_unfold.
  rewrite (interp_loop_finish n m Hs Hn), bind_ret_l. cbn.
  apply Z.ltb_lt in Hbad. rewrite Hbad. reflexivity.
Qed.

(** A send that returns did so after some not-receiving answers followed
    by a non-negative one, in the state these rounds leave. *)
Lemma interp_send_ret_inv (m m' : Mock) :
  interp_state h_mock send m ≈ Ret (m', tt) ->
  exists n : nat,
    (forall k, (k < n)%nat ->
               try_send_ret m (k + attempts m) = - E_IPC_NOT_RECV) /\
    try_send_ret m (n + attempts m) <> - E_IPC_NOT_RECV /\
    0 <= try_send_ret m (n + attempts m) /\
    m' = after_rounds (S n) m.
Proof.
  intros Hrun. rewrite interp_send_unfold in Hrun.
  assert (Hleaf : Leaf (m', tt)
    (ITree.bind (interp_state h_mock loop m)
       (fun sr => if snd sr <? 0
                  then aborted (fst sr) (snd sr) to_env
                  else Ret (fst sr, tt)))).
  { rewrite Hrun. apply Leaf_Ret. }
  apply Leaf_bind_inv in Hleaf. destruct Hleaf as ([s r] & Hloop & Hk).
  apply interp_loop_leaf in Hloop.
  destruct Hloop as (n & Hpre & Hne & Heq). inversion Heq; subst s r.
  cbn [fst snd] in Hk. exists n.
  destruct (Z.ltb_spec (try_send_ret m (n + attempts m)) 0) as [Hlt|Hge].
  - unfold aborted in Hk. apply Leaf_Vis_inv in Hk. destruct Hk as ([] & _).
  - apply Leaf_Ret_inv in Hk. inversion Hk. auto.
Qed.

End SendLoop.

Lemma yields_rounds (n : nat) (a b c d : Z) :
  yields (rounds n a b c d) = n.
Proof.
  unfold yields. induction n as [|n IH]; cbn; [reflexivity | now rewrite IH].
Qed.

Lemma deliveries_rounds (n : nat) (a b c d : Z) :
  deliveries (rounds n a b c d) = n.
Proof.
  unfold deliveries.
  induction n as [|n IH]; cbn; [reflexivity | now rewrite IH].
Qed.

(* --------------------------------------------------------------------- *)
(** ** [ipc_recv] over the scripted kernel *)
(* --------------------------------------------------------------------- *)

Lemma interp_store_when (ptr v : Z) (m : Mock) :
  interp_state h_mock (when (negb (ptr =? NULL)) (store ptr v)) m
  ≈ Ret (store_opt ptr v m, tt).
Proof.
  unfold when, store_opt, store. destruct (ptr =? NULL); cbn.
  - rewrite interp_state_ret. reflexivity.
  - rewrite interp_state_trigger. reflexivity.
Qed.

Lemma interp_copy_when (ptr : Z) (f : env_field) (m : Mock) :
  interp_state h_mock
    (when (negb (ptr =? NULL)) (v <- env_get f ;; store ptr v)) m
  ≈ Ret (store_opt ptr (env_of m f) m, tt).
Proof.
  unfold when, store_opt, store, env_get. destruct (ptr =? NULL); cbn.
  - rewrite interp_state_ret. reflexivity.
  - rewrite interp_state_bind, interp_state_trigger. cbn.
    rewrite bind_ret_l. cbn. rewrite interp_state_trigger. reflexivity.
Qed.

Lemma env_of_store_opt (ptr v : Z) (m : Mock) :
  env_of (store_opt ptr v m) = env_of m.
Proof. unfold store_opt. destruct (ptr =? NULL); reflexivity. Qed.

Lemma interp_recv (from_env_store pg perm_store : Z) (m : Mock) :
  interp_state h_mock (ipc_recv from_env_store pg perm_store) m
  ≈ Ret (recv_post from_env_store pg perm_store m).
Proof.
  unfold ipc_recv, recv_post, page_arg, sys_ipc_recv.
  rewrite interp_state_bind.
  assert (Hcall :
    interp_state h_mock
      (if pg =? NULL then ITree.trigger (SysIpcRecv 4294967295)
       else ITree.trigger (SysIpcRecv pg)) m
    ≈ Ret (log (CRecv (if pg =? NULL then 4294967295 else pg)) m,
           recv_ret m)).
  { destruct (pg =? NULL); rewrite interp_state_trigger; reflexivity. }
  rewrite Hcall, bind_ret_l. cbn [fst snd]. clear Hcall.
  set (m1 := log (CRecv (if pg =? NULL then 4294967295 else pg)) m).
  destruct (recv_ret m <? 0).
  - rewrite interp_state_bind, interp_store_when, bind_ret_l. cbn [fst snd].
    rewrite interp_state_bind, interp_store_when, bind_ret_l. cbn [fst snd].
    rewrite interp_state_ret. reflexivity.
  - rewrite interp_state_bind, interp_copy_when, bind_ret_l. cbn [fst snd].
    rewrite interp_state_bind, interp_copy_when, bind_ret_l. cbn [fst snd].
    unfold env_get.
    rewrite interp_state_bind, interp_state_trigger. cbn.
    rewrite bind_ret_l. cbn. rewrite interp_state_ret.
    rewrite !env_of_store_opt. reflexivity.
Qed.

Lemma calls_store_opt (ptr v : Z) (m : Mock) :
  calls (store_opt ptr v m) = calls m ++ opt_store ptr v.
Proof.
  unfold store_opt, opt_store. destruct (ptr =? NULL); cbn;
    [now rewrite app_nil_r | reflexivity].
Qed.

Lemma mem_store_opt (ptr v : Z) (m : Mock) (a : Z) :
  mem (store_opt ptr v m) a
  = if negb (ptr =? NULL) && (a =? ptr) then v else mem m a.
Proof. unfold store_opt. destruct (ptr =? NULL); reflexivity. Qed.

(** The calls [ipc_recv] makes and the memory it leaves, for the values
    [x] and [y] it stores. *)
Lemma recv_post_calls (fs pg ps : Z) (m : Mock) :
  exists x y : Z,
    (if recv_ret m <? 0 then x = 0 /\ y = 0
     else x = env_of m env_ipc_from /\ y = env_of m env_ipc_perm) /\
    calls (fst (recv_post fs pg ps m))
    = calls m ++ CRecv (page_arg pg) :: opt_store fs x ++ opt_store ps y /\
    forall a,
      mem (fst (recv_post fs pg ps m)) a
      = if negb (ps =? NULL) && (a =? ps) then y
        else if negb (fs =? NULL) && (a =? fs) then x
        else mem m a.
Proof.
  unfold recv_post. destruct (recv_ret m <? 0); cbn [fst].
  - exists 0, 0. split; [auto|]. split.
    + rewrite !calls_store_opt. cbn [log calls].
      rewrite <- !app_assoc. reflexivity.
    + intros a. rewrite !mem_store_opt. reflexivity.
  - exists (env_of m env_ipc_from), (env_of m env_ipc_perm).
    split; [auto|]. split.
    + rewrite !calls_store_opt. cbn [log calls].
      rewrite <- !app_assoc. reflexivity.
    + intros a. rewrite !mem_store_opt. reflexivity.
Qed.

Lemma ret_not_aborted (m m' : Mock) (r e : Z) (t : itree abortE (Mock * unit)) :
  t ≈ Ret (m, tt) -> t ≈ aborted m' r e -> False.
Proof.
  intros H1 H2. rewrite H1 in H2. apply eqit_inv in H2. exact H2.
Qed.

(* --------------------------------------------------------------------- *)
(** ** Receiver and sender over the modelled kernel *)
(* --------------------------------------------------------------------- *)

Section OverKernel.
Import Kernel.

Variable Pages : Type.
Variable map_page : Pages -> Z -> Z -> Z -> Z -> Z -> option Pages.
Variable no_page : Z -> bool.
Variable valid_dest : Z -> bool.
Variables E_IPC_NOT_RECV E_INVAL E_OTHER : Z.

Local Abbreviation K := (Kernel Pages).
Local Abbreviation hk := (h_kernel Pages map_page no_page valid_dest
            E_IPC_NOT_RECV E_INVAL E_OTHER).

Lemma k_store_when me sched (ptr v : Z) (k : K) (um : Z -> Z) :
  interp_state (hk me sched) (when (negb (ptr =? NULL)) (store ptr v)) (k, um)
  ≈ Ret ((k, poke_opt ptr v um), tt).
Proof.
  unfold when, poke_opt, store. destruct (ptr =? NULL); cbn.
  - rewrite interp_state_ret. reflexivity.
  - rewrite interp_state_trigger. reflexivity.
Qed.

Lemma k_copy_when me sched (ptr : Z) (f : env_field) (k : K) (um : Z -> Z) :
  interp_state (hk me sched)
    (when (negb (ptr =? NULL)) (v <- env_get f ;; store ptr v)) (k, um)
  ≈ Ret ((k, poke_opt ptr
               match f with
               | env_ipc_from => fromId (mailbox Pages k me)
               | env_ipc_perm => perm (mailbox Pages k me)
               | env_ipc_value => value (mailbox Pages k me)
               end um), tt).
Proof.
  unfold when, poke_opt, store, env_get. destruct (ptr =? NULL); cbn.
  - rewrite interp_state_ret. reflexivity.
  - rewrite interp_state_bind, interp_state_trigger. cbn.
    rewrite bind_ret_l. cbn. rewrite interp_state_trigger. reflexivity.
Qed.

Lemma k_recv_call me sched (pg : Z) (s : K * (Z -> Z)) :
  interp_state (hk me sched)
    (if pg =? NULL then sys_ipc_recv 4294967295 else sys_ipc_recv pg) s
  ≈ hk me sched _ (SysIpcRecv (page_arg pg)) s.
Proof.
  unfold page_arg, sys_ipc_recv.
  destruct (pg =? NULL); rewrite interp_state_trigger; reflexivity.
Qed.

Lemma hk_recv_none me sched (d : Z) (k : K) (um : Z -> Z) :
  postReceive Pages no_page valid_dest me d k = None ->
  hk me sched _ (SysIpcRecv d) (k, um) = Ret ((k, um), - E_INVAL).
Proof. intros H. unfold hk, h_kernel. cbn [fst snd]. now rewrite H. Qed.

Lemma hk_recv_some me sched (d : Z) (k k1 : K) (um : Z -> Z) :
  postReceive Pages no_page valid_dest me d k = Some k1 ->
  hk me sched _ (SysIpcRecv d) (k, um)
  = ITree.bind (sched k1) (fun k2 => Ret ((k2, um), 0)).
Proof. intros H. unfold hk, h_kernel. cbn [fst snd]. now rewrite H. Qed.

(** A receive the kernel refuses. *)
Lemma k_recv_refused me sched (fs pg ps : Z) (k : K) (um : Z -> Z) :
  0 < E_INVAL ->
  postReceive Pages no_page valid_dest me (page_arg pg) k = None ->
  interp_state (hk me sched) (ipc_recv fs pg ps) (k, um)
  ≈ Ret ((k, poke_opt ps 0 (poke_opt fs 0 um)), - E_INVAL).
Proof.
  intros HE Hpost. unfold ipc_recv.
  rewrite interp_state_bind, k_recv_call, (hk_recv_none _ _ _ _ _ Hpost).
  rewrite bind_ret_l. cbn [fst snd].
  assert (Hneg : (- E_INVAL <? 0) = true) by (apply Z.ltb_lt; lia).
  rewrite Hneg.
  rewrite interp_state_bind, k_store_when, bind_ret_l. cbn [fst snd].
  rewrite interp_state_bind, k_store_when, bind_ret_l. cbn [fst snd].
  rewrite interp_state_ret. reflexivity.
Qed.

(** A receive the kernel accepts, resumed in kernel state [k2]. *)
Lemma k_recv_resumed me sched (fs pg ps : Z) (k k1 k2 : K) (um : Z -> Z) :
  postReceive Pages no_page valid_dest me (page_arg pg) k = Some k1 ->
  sched k1 ≈ Ret k2 ->
  interp_state (hk me sched) (ipc_recv fs pg ps) (k, um)
  ≈ Ret ((k2, poke_opt ps (perm (mailbox Pages k2 me))
                (poke_opt fs (fromId (mailbox Pages k2 me)) um)),
         to_int32 (value (mailbox Pages k2 me))).
Proof.
  intros Hpost Hsched. unfold ipc_recv.
  rewrite interp_state_bind, k_recv_call, (hk_recv_some _ _ _ _ _ _ Hpost).
  rewrite Hsched, !bind_ret_l. cbn [fst snd].
  change (0 <? 0) with false. cbv iota.
  rewrite interp_state_bind, k_copy_when, bind_ret_l. cbn [fst snd].
  rewrite interp_state_bind, k_copy_when, bind_ret_l. cbn [fst snd].
  unfold env_get. rewrite interp_state_bind, interp_state_trigger. cbn.
  rewrite bind_ret_l. cbn. rewrite interp_state_ret. reflexivity.
Qed.

(** A send that the kernel accepts at the first attempt. *)
Lemma k_send_accepted me (to_env val pg p : Z) (k k' : K) (um : Z -> Z) :
  0 < E_IPC_NOT_RECV ->
  tryDeliver Pages map_page no_page me to_env val (page_arg pg) p k
    = (k', Success) ->
  interp_state (hk me (idle Pages)) (ipc_send E_IPC_NOT_RECV to_env val pg p)
    (k, um)
  ≈ Ret ((k', um), tt).
Proof.
  intros HE Hdel. unfold ipc_send. rewrite unfold_iter.
  unfold ipc_send_body at 1. rewrite !bind_bind, interp_state_bind.
  assert (Hcall :
    interp_state (hk me (idle Pages))
      (if pg =? NULL
       then sys_ipc_try_send to_env val 4294967295 p
       else sys_ipc_try_send to_env val pg p) (k, um)
    ≈ Ret ((k', um), 0)).
  { unfold sys_ipc_try_send.
    assert (Hd := Hdel). unfold page_arg in Hd.
    destruct (pg =? NULL); rewrite interp_state_trigger; cbn;
      rewrite Hd; reflexivity. }
  rewrite Hcall, bind_ret_l. cbn [fst snd]. clear Hcall.
  assert (Hnz : (0 =? - E_IPC_NOT_RECV) = false) by (apply Z.eqb_neq; lia).
  rewrite Hnz. unfold sys_yield.
  rewrite bind_bind, interp_state_bind, interp_state_trigger.
  unfold hk at 1, h_kernel, idle. cbn [fst snd].
  rewrite !bind_ret_l. cbn [fst snd].
  change (0 <? 0) with false. cbv iota.
  rewrite interp_state_ret. reflexivity.
Qed.

(** A receiver [Q] and a sender [P] meet: [Q] calls [ipc_recv], is
    suspended, [P] runs [ipc_send] to the end and the kernel accepts its
    first attempt, then [Q] runs again. *)
Lemma k_meet (P Q fs pg ps v srcpg p : Z) (k k' : K) (umQ umP : Z -> Z) :
  0 < E_IPC_NOT_RECV ->
  no_page (page_arg pg) || valid_dest (page_arg pg) = true ->
  tryDeliver Pages map_page no_page P Q v (page_arg srcpg) p
    (set_mailbox Pages Q (mkMailbox true 0 0 (page_arg pg) 0) k)
    = (k', Success) ->
  interp_state
    (hk Q (run_other Pages map_page no_page valid_dest
             E_IPC_NOT_RECV E_INVAL E_OTHER P
             (ipc_send E_IPC_NOT_RECV Q v srcpg p) umP))
    (ipc_recv fs pg ps) (k, umQ)
  ≈ Ret ((k', poke_opt ps (perm (mailbox Pages k' Q))
                (poke_opt fs (fromId (mailbox Pages k' Q)) umQ)),
         to_int32 (value (mailbox Pages k' Q))).
Proof.
  intros HE Hvalid Hdel.
  apply k_recv_resumed
    with (k1 := set_mailbox Pages Q (mkMailbox true 0 0 (page_arg pg) 0) k).
  - unfold postReceive. now rewrite Hvalid.
  - unfold run_other.
    rewrite (k_send_accepted P Q v srcpg p _ k' umP HE Hdel), bind_ret_l.
    reflexivity.
Qed.

(** What [tryDeliver] does to a receiving target when no page changes
    hands: the receiver asked for none, or the sender supplied none. *)
Lemma deliver_without_page (P Q v srcva p dst : Z) (k : K) :
  live Pages k Q = true ->
  no_page dst || no_page srcva = true ->
  tryDeliver Pages map_page no_page P Q v srcva p
    (set_mailbox Pages Q (mkMailbox true 0 0 dst 0) k)
  = (set_mailbox Pages Q (mkMailbox false P v dst 0)
       (set_mailbox Pages Q (mkMailbox true 0 0 dst 0) k), Success).
Proof.
  intros Hlive Hno. unfold tryDeliver.
  cbn [set_mailbox live mailbox pages]. rewrite Hlive, Z.eqb_refl.
  cbn [negb receiving destAddress].
  destruct (no_page srcva), (no_page dst); cbn in Hno |- *;
    try reflexivity; discriminate.
Qed.

End OverKernel.

(* --------------------------------------------------------------------- *)
(** ** The send loop: retries, yields, outcome *)
(* --------------------------------------------------------------------- *)

(** C1 (as amended).  When [sys_ipc_try_send] answers [-E_IPC_NOT_RECV]
    to the first [N] calls and succeeds on call [N+1], one call of
    [ipc_send] makes exactly [N+1] delivery attempts, calls [sys_yield]
    exactly [N+1] times (once after every attempt, the successful one
    included) and then returns. *)
Theorem ipc_send_retry_yields
  (E : Z) (N : nat) (rr : Z) (script : nat -> Z) (ev : env_field -> Z)
  (mm : Z -> Z) (to_env val pg perm : Z) :
  0 < E ->
  (forall k, (k < N)%nat -> script k = - E) ->
  0 <= script N ->
  exists m' : Mock,
    interp_state h_mock (ipc_send E to_env val pg perm)
      (mock0 rr script ev mm) ≈ Ret (m', tt) /\
    calls m' = rounds (S N) to_env val (page_arg pg) perm /\
    yields (calls m') = S N /\
    deliveries (calls m') = S N.
Proof.
  intros HE Hpre Hok.
  exists (after_rounds to_env val pg perm (S N) (mock0 rr script ev mm)).
  split; [|split; [reflexivity|split]].
  - apply interp_send_returns; cbn [mock0 try_send_ret attempts];
      rewrite ?Nat.add_0_r; try assumption.
    + intros k Hk. rewrite Nat.add_0_r. auto.
    + lia.
  - apply yields_rounds.
  - apply deliveries_rounds.
Qed.

Lemma ipc_send_retry_yields_witness :
  exists m' : Mock,
    interp_state h_mock (ipc_send 7 4097 42 0 0)
      (mock0 0 (fun k => if (k <? 2)%nat then -7 else 0)
         (fun _ => 0) (fun _ => 0)) ≈ Ret (m', tt) /\
    calls m' = rounds 3 4097 42 (page_arg 0) 0 /\
    yields (calls m') = 3%nat /\
    deliveries (calls m') = 3%nat.
Proof.
  apply (ipc_send_retry_yields 7 2 0 (fun k => if (k <? 2)%nat then -7 else 0)).
  - lia.
  - intros k Hk. destruct k as [|[|k]]; [reflexivity | reflexivity | lia].
  - cbn. lia.
Defined.

(** A count of exactly [N] yields fails already for [N = 0]: when the
    very first [sys_ipc_try_send] succeeds, [ipc_send] does not return
    having yielded zero times. *)
Lemma ipc_send_success_at_once_still_yields :
  ~ exists m' : Mock,
      interp_state h_mock (ipc_send 7 4097 42 0 0)
        (mock0 0 (fun _ => 0) (fun _ => 0) (fun _ => 0)) ≈ Ret (m', tt) /\
      yields (calls m') = 0%nat.
Proof.
  intros (m' & Hrun & Hy).
  rewrite (interp_send_returns 7 4097 42 0 0 0) in Hrun.
  - apply eutt_inv_Ret in Hrun. inversion Hrun; subst m'. discriminate Hy.
  - intros k Hk. lia.
  - cbn. lia.
  - cbn. lia.
Qed.

(** C2.  [ipc_send] returns exactly when some delivery attempt succeeds
    after not-receiving answers only; a not-receiving answer puts the
    call back at the top of its loop, so another attempt follows and the
    answer never reaches the caller; any other negative answer ends in
    [panic] and the call does not return. *)
Theorem ipc_send_outcome
  (E : Z) (rr : Z) (script : nat -> Z) (ev : env_field -> Z) (mm : Z -> Z)
  (to_env val pg perm : Z) :
  0 < E ->
  let m0 := mock0 rr script ev mm in
  let run := interp_state h_mock (ipc_send E to_env val pg perm) in
  ((exists m', run m0 ≈ Ret (m', tt)) <->
   (exists N : nat, (forall k, (k < N)%nat -> script k = - E) /\
                   0 <= script N)) /\
  (forall N : nat,
     (forall k, (k < N)%nat -> script k = - E) ->
     run m0 ≈ run (after_rounds to_env val pg perm N m0)) /\
  (forall N : nat,
     (forall k, (k < N)%nat -> script k = - E) ->
     script N < 0 -> script N <> - E ->
     run m0 ≈ aborted (after_rounds to_env val pg perm (S N) m0)
                      (script N) to_env /\
     ~ exists m', run m0 ≈ Ret (m', tt)).
Proof.
  intros HE m0 run.
  assert (Hscr : forall n, try_send_ret m0 (n + attempts m0) = script n).
  { intros n. cbn. now rewrite Nat.add_0_r. }
  assert (Hoff : forall N, (forall k, (k < N)%nat -> script k = - E) ->
            forall k, (k < N)%nat ->
                      try_send_ret m0 (k + attempts m0) = - E).
  { intros N Hpre k Hk. rewrite Hscr. auto. }
  assert (Hpanic : forall N : nat,
     (forall k, (k < N)%nat -> script k = - E) ->
     script N < 0 -> script N <> - E ->
     run m0 ≈ aborted (after_rounds to_env val pg perm (S N) m0)
                      (script N) to_env).
  { intros N Hpre Hneg Hne. unfold run.
    rewrite (interp_send_panics E to_env val pg perm N m0 (Hoff N Hpre));
      rewrite ?Hscr; auto; reflexivity. }
  split; [split|split].
  - intros (m' & Hrun). unfold run in Hrun.
    apply interp_send_ret_inv in Hrun.
    destruct Hrun as (n & Hpre & _ & Hge & _).
    exists n. split.
    + intros k Hk'. specialize (Hpre k Hk'). now rewrite Hscr in Hpre.
    + now rewrite Hscr in Hge.
  - intros (N & Hpre & Hok).
    exists (after_rounds to_env val pg perm (S N) m0). unfold run.
    apply interp_send_returns;
      [apply Hoff; exact Hpre | rewrite Hscr; lia | rewrite Hscr; exact Hok].
  - intros N Hpre. unfold run. apply interp_send_retries.
    apply Hoff; exact Hpre.
  - intros N Hpre Hneg Hne. split; [auto|].
    intros (m' & Hret).
    exact (ret_not_aborted _ _ _ _ _ Hret (Hpanic N Hpre Hneg Hne)).
Qed.

Lemma ipc_send_outcome_witness :
  (exists m',
     interp_state h_mock (ipc_send 7 4097 42 0 0)
       (mock0 0 (fun k => if (k <? 2)%nat then -7 else 0)
          (fun _ => 0) (fun _ => 0)) ≈ Ret (m', tt)) /\
  (interp_state h_mock (ipc_send 7 4097 42 0 0)
     (mock0 0 (fun k => if (k <? 1)%nat then -7 else -2)
        (fun _ => 0) (fun _ => 0))
   ≈ aborted (after_rounds 4097 42 0 0 2
                (mock0 0 (fun k => if (k <? 1)%nat then -7 else -2)
                   (fun _ => 0) (fun _ => 0))) (-2) 4097).
Proof.
  split.
  - apply (ipc_send_outcome 7 0 (fun k => if (k <? 2)%nat then -7 else 0)
             (fun _ => 0) (fun _ => 0) 4097 42 0 0); [lia|].
    exists 2%nat. split; [|cbn; lia].
    intros k Hk. destruct k as [|[|k]]; [reflexivity | reflexivity | lia].
  - refine (proj1 (proj2 (proj2
      (ipc_send_outcome 7 0 (fun k => if (k <? 1)%nat then -7 else -2)
         (fun _ => 0) (fun _ => 0) 4097 42 0 0 _)) 1%nat _ _ _)).
    + lia.
    + intros k Hk. destruct k as [|k]; [reflexivity | lia].
    + cbn. lia.
    + cbn. lia.
Defined.

(** C9.  [ipc_send] calls [sys_yield] once after every delivery attempt,
    the last one included: whenever the call is back at the top of its
    loop, and when it ends (by returning or by [panic]), the calls made
    so far are attempt, yield, attempt, yield, ...; attempts and yields
    are equal in number, and at the end there is at least one yield, also
    when the very first attempt succeeds or fails for good. *)
Theorem ipc_send_yields_after_each_attempt
  (E : Z) (rr : Z) (script : nat -> Z) (ev : env_field -> Z) (mm : Z -> Z)
  (to_env val pg perm : Z) :
  let m0 := mock0 rr script ev mm in
  let run := interp_state h_mock (ipc_send E to_env val pg perm) in
  (forall N : nat,
     (forall k, (k < N)%nat -> script k = - E) ->
     exists m, run m0 ≈ run m /\
       calls m = rounds N to_env val (page_arg pg) perm /\
       yields (calls m) = N /\ deliveries (calls m) = N) /\
  (forall N : nat,
     (forall k, (k < N)%nat -> script k = - E) ->
     script N <> - E ->
     exists m',
       calls m' = rounds (S N) to_env val (page_arg pg) perm /\
       yields (calls m') = S N /\ deliveries (calls m') = S N /\
       (0 <= script N -> run m0 ≈ Ret (m', tt)) /\
       (script N < 0 -> run m0 ≈ aborted m' (script N) to_env)) /\
  (forall m', run m0 ≈ Ret (m', tt) ->
     yields (calls m') = deliveries (calls m') /\
     (1 <= yields (calls m'))%nat).
Proof.
  intros m0 run.
  assert (Hscr : forall n, try_send_ret m0 (n + attempts m0) = script n).
  { intros n. cbn. now rewrite Nat.add_0_r. }
  assert (Hoff : forall N, (forall k, (k < N)%nat -> script k = - E) ->
            forall k, (k < N)%nat ->
                      try_send_ret m0 (k + attempts m0) = - E).
  { intros N Hpre k Hk. rewrite Hscr. auto. }
  split; [|split].
  - intros N Hpre. exists (after_rounds to_env val pg perm N m0).
    split; [apply interp_send_retries, Hoff, Hpre|].
    split; [reflexivity|]. cbn [after_rounds calls m0 mock0 app].
    split; [apply yields_rounds | apply deliveries_rounds].
  - intros N Hpre Hne. exists (after_rounds to_env val pg perm (S N) m0).
    split; [reflexivity|]. cbn [after_rounds calls m0 mock0 app].
    split; [apply yields_rounds|]. split; [apply deliveries_rounds|].
    split.
    + intros Hok. apply interp_send_returns;
        [apply Hoff, Hpre | now rewrite Hscr | now rewrite Hscr].
    + intros Hbad. unfold run.
      rewrite (interp_send_panics E to_env val pg perm N m0 (Hoff N Hpre));
        rewrite ?Hscr; auto; reflexivity.
  - intros m' Hret. apply interp_send_ret_inv in Hret.
    destruct Hret as (n & _ & _ & _ & ->).
    cbn [after_rounds calls m0 mock0 app].
    rewrite yields_rounds, deliveries_rounds. split; [reflexivity | lia].
Qed.

Lemma ipc_send_yields_after_each_attempt_witness :
  (exists m',
     calls m' = [CTrySend 4097 42 4294967295 0; CYield] /\
     yields (calls m') = 1%nat /\ deliveries (calls m') = 1%nat /\
     interp_state h_mock (ipc_send 7 4097 42 0 0)
       (mock0 0 (fun _ => 0) (fun _ => 0) (fun _ => 0)) ≈ Ret (m', tt)) /\
  (exists m',
     calls m' = [CTrySend 4097 42 4294967295 0; CYield] /\
     yields (calls m') = 1%nat /\ deliveries (calls m') = 1%nat /\
     interp_state h_mock (ipc_send 7 4097 42 0 0)
       (mock0 0 (fun _ => -2) (fun _ => 0) (fun _ => 0))
     ≈ aborted m' (-2) 4097).
Proof.
  split.
  - destruct (proj1 (proj2
      (ipc_send_yields_after_each_attempt 7 0 (fun _ => 0)
         (fun _ => 0) (fun _ => 0) 4097 42 0 0)) 0%nat)
      as (m' & Hc & Hy & Hd & Hret & _).
    + intros k Hk. lia.
    + lia.
    + exists m'. repeat split; try assumption. apply Hret. lia.
  - destruct (proj1 (proj2
      (ipc_send_yields_after_each_attempt 7 0 (fun _ => -2)
         (fun _ => 0) (fun _ => 0) 4097 42 0 0)) 0%nat)
      as (m' & Hc & Hy & Hd & _ & Hbad).
    + intros k Hk. lia.
    + lia.
    + exists m'. repeat split; try assumption. apply Hbad. lia.
Defined.

(** C8.  Both functions encode "no page" as the address 0xffffffff:
    with [pg == NULL], [ipc_recv] calls [sys_ipc_recv] with 0xffffffff
    and every [sys_ipc_try_send] of [ipc_send] carries 0xffffffff; a
    non-null [pg] is passed on as it is; [ipc_send] passes [to_env],
    [val] and [perm] on unchanged in both cases. *)
Theorem no_page_is_0xffffffff
  (E : Z) (to_env val pg perm fs ps : Z) (m : Mock) :
  let sent := if pg =? NULL then 0xffffffff else pg in
  (pg = NULL -> sent = 0xffffffff) /\
  (pg <> NULL -> sent = pg) /\
  (exists m' r rest,
     interp_state h_mock (ipc_recv fs pg ps) m ≈ Ret (m', r) /\
     calls m' = calls m ++ CRecv sent :: rest /\
     Forall (fun c => is_store c = true) rest) /\
  (forall N : nat,
     (forall k, (k < N)%nat -> try_send_ret m (k + attempts m) = - E) ->
     exists m',
       interp_state h_mock (ipc_send E to_env val pg perm) m
       ≈ interp_state h_mock (ipc_send E to_env val pg perm) m' /\
       calls m' = calls m ++ rounds N to_env val sent perm) /\
  (forall N : nat,
     (forall k, (k < N)%nat -> try_send_ret m (k + attempts m) = - E) ->
     try_send_ret m (N + attempts m) <> - E ->
     exists m',
       calls m' = calls m ++ rounds (S N) to_env val sent perm /\
       (0 <= try_send_ret m (N + attempts m) ->
        interp_state h_mock (ipc_send E to_env val pg perm) m
        ≈ Ret (m', tt)) /\
       (try_send_ret m (N + attempts m) < 0 ->
        interp_state h_mock (ipc_send E to_env val pg perm) m
        ≈ aborted m' (try_send_ret m (N + attempts m)) to_env)).
Proof.
  intros sent.
  split; [|split; [|split; [|split]]].
  - intros ->. reflexivity.
  - intros Hpg. unfold sent. apply Z.eqb_neq in Hpg. now rewrite Hpg.
  - destruct (recv_post_calls fs pg ps m) as (x & y & _ & Hc & _).
    exists (fst (recv_post fs pg ps m)), (snd (recv_post fs pg ps m)),
      (opt_store fs x ++ opt_store ps y).
    split; [|split].
    + rewrite interp_recv. now destruct (recv_post fs pg ps m).
    + exact Hc.
    + apply Forall_app. unfold opt_store.
      split; [destruct (fs =? NULL) | destruct (ps =? NULL)];
        repeat constructor.
  - intros N Hpre. exists (after_rounds to_env val pg perm N m).
    split; [apply interp_send_retries, Hpre | reflexivity].
  - intros N Hpre Hne. exists (after_rounds to_env val pg perm (S N) m).
    split; [reflexivity|]. split.
    + intros Hok. now apply interp_send_returns.
    + intros Hbad. now apply interp_send_panics.
Qed.

(* --------------------------------------------------------------------- *)
(** ** [ipc_recv]: stores and result *)
(* --------------------------------------------------------------------- *)

Lemma wrap32_to_int32 (v : Z) : 0 <= v < 2 ^ 32 -> wrap32 (to_int32 v) = v.
Proof.
  intros Hv. unfold to_int32, wrap32.
  rewrite (Z.mod_small v) by lia.
  destruct (v <? 2 ^ 31).
  - apply Z.mod_small. lia.
  - replace (v - 2 ^ 32) with (v + (-1) * 2 ^ 32) by lia.
    rewrite Z.mod_add by lia. apply Z.mod_small. lia.
Qed.

Lemma to_int32_small (v : Z) : 0 <= v < 2 ^ 31 -> to_int32 v = v.
Proof.
  intros Hv. unfold to_int32, wrap32. rewrite Z.mod_small by lia.
  destruct (Z.ltb_spec v (2 ^ 31)); lia.
Qed.

(** C10.  [ipc_recv] stores through [from_env_store] and [perm_store]
    only when the pointer is not NULL, each pointer on its own, and then
    exactly once per call, on the failure path (value 0) and on the
    success path (the mailbox field) alike: besides the system call the
    calls made are exactly these stores, none of them to NULL, and the
    word at NULL is not changed. *)
Theorem ipc_recv_out_parameters (fs pg ps : Z) (m : Mock) :
  exists (m' : Mock) (r x y : Z),
    interp_state h_mock (ipc_recv fs pg ps) m ≈ Ret (m', r) /\
    (recv_ret m < 0 -> x = 0 /\ y = 0) /\
    (0 <= recv_ret m ->
     x = env_of m env_ipc_from /\ y = env_of m env_ipc_perm) /\
    (fs = NULL -> ps = NULL ->
     calls m' = calls m ++ [CRecv (page_arg pg)]) /\
    (fs <> NULL -> ps = NULL ->
     calls m' = calls m ++ [CRecv (page_arg pg); CStore fs x]) /\
    (fs = NULL -> ps <> NULL ->
     calls m' = calls m ++ [CRecv (page_arg pg); CStore ps y]) /\
    (fs <> NULL -> ps <> NULL ->
     calls m' = calls m ++ [CRecv (page_arg pg); CStore fs x; CStore ps y]) /\
    (forall l v, calls m' = calls m ++ l -> ~ In (CStore NULL v) l) /\
    mem m' NULL = mem m NULL.
Proof.
  destruct (recv_post_calls fs pg ps m) as (x & y & Hxy & Hc & Hm).
  exists (fst (recv_post fs pg ps m)), (snd (recv_post fs pg ps m)), x, y.
  split; [rewrite interp_recv; now destruct (recv_post fs pg ps m)|].
  split; [intros Hneg; apply Z.ltb_lt in Hneg; now rewrite Hneg in Hxy|].
  split; [intros Hok; apply Z.ltb_ge in Hok; now rewrite Hok in Hxy|].
  rewrite Hc. unfold opt_store.
  repeat split.
  - intros -> ->. reflexivity.
  - intros Hfs ->. apply Z.eqb_neq in Hfs. now rewrite Hfs.
  - intros -> Hps. apply Z.eqb_neq in Hps. now rewrite Hps.
  - intros Hfs Hps. apply Z.eqb_neq in Hfs, Hps. now rewrite Hfs, Hps.
  - intros l v Hl Hin. apply app_inv_head in Hl. subst l.
    destruct Hin as [Hin|Hin]; [discriminate|].
    apply in_app_or in Hin.
    destruct Hin as [Hin|Hin];
      [destruct (Z.eqb_spec fs NULL) | destruct (Z.eqb_spec ps NULL)];
      cbn in Hin; try contradiction;
      destruct Hin as [Hin|[]]; inversion Hin; congruence.
  - rewrite Hm.
    destruct (Z.eqb_spec ps NULL) as [->|Hps];
      destruct (Z.eqb_spec fs NULL) as [->|Hfs]; cbn [negb andb];
      try reflexivity.
    + destruct (Z.eqb_spec NULL fs); [congruence | reflexivity].
    + destruct (Z.eqb_spec NULL ps); [congruence | reflexivity].
    + destruct (Z.eqb_spec NULL ps); [congruence|].
      destruct (Z.eqb_spec NULL fs); [congruence | reflexivity].
Qed.

Lemma poke_opt_same (ptr v : Z) (um : Z -> Z) :
  ptr <> NULL -> poke_opt ptr v um ptr = v.
Proof.
  intros H. unfold poke_opt. apply Z.eqb_neq in H. rewrite H.
  now rewrite Z.eqb_refl.
Qed.

Lemma poke_opt_other (ptr v a : Z) (um : Z -> Z) :
  a <> ptr -> poke_opt ptr v um a = um a.
Proof.
  intros H. unfold poke_opt. apply Z.eqb_neq in H.
  destruct (ptr =? NULL); [reflexivity | now rewrite H].
Qed.

Section Meeting.
Import Kernel.

Variable Pages : Type.
Variable map_page : Pages -> Z -> Z -> Z -> Z -> Z -> option Pages.
Variable no_page : Z -> bool.
Variable valid_dest : Z -> bool.
Variables E_IPC_NOT_RECV E_INVAL E_OTHER : Z.

Local Abbreviation K := (Kernel Pages).
Local Abbreviation hk := (h_kernel Pages map_page no_page valid_dest
            E_IPC_NOT_RECV E_INVAL E_OTHER).
Local Abbreviation sender := (run_other Pages map_page no_page valid_dest
            E_IPC_NOT_RECV E_INVAL E_OTHER).

(** The kernel reads 0xffffffff as "no page", and the sender can be told
    apart from a not-receiving answer. *)
Hypothesis no_page_sentinel : no_page 0xffffffff = true.
Hypothesis E_IPC_NOT_RECV_pos : 0 < E_IPC_NOT_RECV.

(** C5.  Round trip without a page.  Process [Q] calls
    [ipc_recv (&from, NULL, &perm)] and is suspended; process [P] calls
    [ipc_send (Q, v, NULL, 0)]; [Q] runs again.  For every 32-bit [v],
    [ipc_recv] returns [v] (as the [int32_t] with the same 32 bits),
    [from] holds [P] and [perm] holds 0. *)
Theorem ipc_round_trip
  (P Q v from perm_store : Z) (k : K) (umQ umP : Z -> Z) :
  live Pages k Q = true ->
  0 <= v < 2 ^ 32 ->
  from <> NULL -> perm_store <> NULL -> from <> perm_store ->
  exists (k' : K) (um' : Z -> Z) (r : Z),
    interp_state
      (hk Q (sender P (ipc_send E_IPC_NOT_RECV Q v NULL 0) umP))
      (ipc_recv from NULL perm_store) (k, umQ)
    ≈ Ret ((k', um'), r) /\
    r = to_int32 v /\ wrap32 r = v /\ (v < 2 ^ 31 -> r = v) /\
    um' from = P /\
    um' perm_store = 0.
Proof.
  intros Hlive Hv Hfrom Hperm Hdiff.
  eexists _, _, _. split.
  - apply k_meet.
    + exact E_IPC_NOT_RECV_pos.
    + change (page_arg NULL) with 4294967295.
      now rewrite no_page_sentinel.
    + apply deliver_without_page; [exact Hlive|].
      change (page_arg NULL) with 4294967295.
      now rewrite no_page_sentinel.
  - cbn [set_mailbox mailbox]. rewrite Z.eqb_refl.
    cbn [value fromId perm].
    split; [reflexivity|]. split; [now apply wrap32_to_int32|].
    split; [intros Hsmall; apply to_int32_small; lia|].
    split.
    + rewrite poke_opt_other by exact Hdiff. now apply poke_opt_same.
    + now apply poke_opt_same.
Qed.

(** C4.  A receiver that asked for no page gets none.  [Q] calls
    [ipc_recv] with [pg == NULL]; [P] then calls [ipc_send (Q, v, page, p)]
    with a non-null [page] and any permission [p] (read-write included).
    [Q]'s [ipc_recv] still stores 0 through [perm_store], the mailbox
    permission is 0, and the address spaces are as they were: nothing was
    mapped. *)
Theorem recv_without_page_gets_none
  (P Q v page p fs perm_store : Z) (k : K) (umQ umP : Z -> Z) :
  live Pages k Q = true ->
  page <> NULL ->
  perm_store <> NULL ->
  exists (k' : K) (um' : Z -> Z) (r : Z),
    interp_state
      (hk Q (sender P (ipc_send E_IPC_NOT_RECV Q v page p) umP))
      (ipc_recv fs NULL perm_store) (k, umQ)
    ≈ Ret ((k', um'), r) /\
    um' perm_store = 0 /\
    perm (mailbox Pages k' Q) = 0 /\
    pages Pages k' = pages Pages k.
Proof.
  intros Hlive Hpage Hperm.
  eexists _, _, _. split.
  - apply k_meet.
    + exact E_IPC_NOT_RECV_pos.
    + change (page_arg NULL) with 4294967295.
      now rewrite no_page_sentinel.
    + apply deliver_without_page; [exact Hlive|].
      change (page_arg NULL) with 4294967295.
      now rewrite no_page_sentinel.
  - cbn [set_mailbox mailbox pages]. rewrite Z.eqb_refl. cbn [perm].
    split; [now apply poke_opt_same|]. split; reflexivity.
Qed.

(** C3.  [ipc_recv (from_env_store, pg, perm_store)].
    On the code, whatever the kernel answers: when [sys_ipc_recv]
    returns a negative code, 0 is stored through each non-null
    out-parameter and that code is returned; otherwise [env_ipc_from]
    and [env_ipc_perm] are stored through the non-null out-parameters
    and [env_ipc_value] is returned (as [int32_t]).
    On the modelled kernel: a refused receive returns the error with the
    kernel state untouched and without the scheduler being entered; and
    when the receive is matched by a send in which no page changes hands
    (the receiver asked for none, or the sender supplied none), the
    permission stored is 0 and no address space changes. *)
Theorem ipc_recv_contract (fs pg ps : Z) :
  (forall m : Mock, exists (m' : Mock) (r x y : Z),
     interp_state h_mock (ipc_recv fs pg ps) m ≈ Ret (m', r) /\
     (recv_ret m < 0 -> r = recv_ret m /\ x = 0 /\ y = 0) /\
     (0 <= recv_ret m ->
      r = to_int32 (env_of m env_ipc_value) /\
      (0 <= env_of m env_ipc_value < 2 ^ 32 ->
       wrap32 r = env_of m env_ipc_value) /\
      x = env_of m env_ipc_from /\ y = env_of m env_ipc_perm) /\
     calls m' = calls m ++ CRecv (page_arg pg)
                  :: opt_store fs x ++ opt_store ps y /\
     (ps <> NULL -> mem m' ps = y) /\
     (fs <> NULL -> fs <> ps -> mem m' fs = x)) /\
  (forall (me : Z) (sched : K -> itree killE K) (k : K) (um : Z -> Z),
     0 < E_INVAL ->
     postReceive Pages no_page valid_dest me (page_arg pg) k = None ->
     interp_state (hk me sched) (ipc_recv fs pg ps) (k, um)
     ≈ Ret ((k, poke_opt ps 0 (poke_opt fs 0 um)), - E_INVAL)) /\
  (forall (P Q v srcpg p : Z) (k : K) (umQ umP : Z -> Z),
     live Pages k Q = true ->
     no_page (page_arg pg) || valid_dest (page_arg pg) = true ->
     no_page (page_arg pg) || no_page (page_arg srcpg) = true ->
     exists (k' : K) (um' : Z -> Z),
       interp_state
         (hk Q (sender P (ipc_send E_IPC_NOT_RECV Q v srcpg p) umP))
         (ipc_recv fs pg ps) (k, umQ)
       ≈ Ret ((k', um'), to_int32 v) /\
       (ps <> NULL -> um' ps = 0) /\
       (fs <> NULL -> fs <> ps -> um' fs = P) /\
       pages Pages k' = pages Pages k).
Proof.
  split; [|split].
  - intros m.
    destruct (recv_post_calls fs pg ps m) as (x & y & Hxy & Hc & Hm).
    exists (fst (recv_post fs pg ps m)), (snd (recv_post fs pg ps m)), x, y.
    split; [rewrite interp_recv; now destruct (recv_post fs pg ps m)|].
    split; [|split; [|split; [exact Hc|split]]].
    + intros Hneg. apply Z.ltb_lt in Hneg. unfold recv_post.
      rewrite Hneg in Hxy |- *. cbn [snd]. tauto.
    + intros Hok. apply Z.ltb_ge in Hok. unfold recv_post.
      rewrite Hok in Hxy |- *. cbn [snd].
      split; [reflexivity|]. split; [apply wrap32_to_int32 | tauto].
    + intros Hps. rewrite Hm. apply Z.eqb_neq in Hps.
      now rewrite Hps, Z.eqb_refl.
    + intros Hfs Hne. rewrite Hm.
      apply Z.eqb_neq in Hfs, Hne. rewrite Hfs, Hne, Z.eqb_refl.
      now rewrite andb_false_r.
  - intros me sched k um HE Hpost. now apply k_recv_refused.
  - intros P Q v srcpg p k umQ umP Hlive Hvalid Hno.
    pose proof (k_meet Pages map_page no_page valid_dest
                  E_IPC_NOT_RECV E_INVAL E_OTHER P Q fs pg ps v srcpg p k _
                  umQ umP E_IPC_NOT_RECV_pos Hvalid
                  (deliver_without_page Pages map_page no_page
                     P Q v (page_arg srcpg) p (page_arg pg) k Hlive Hno))
      as Hrun.
    cbn [set_mailbox mailbox] in Hrun. rewrite Z.eqb_refl in Hrun.
    cbn [value fromId perm] in Hrun.
    eexists _, _. split; [exact Hrun|].
    split; [intros Hps; now apply poke_opt_same|].
    split; [|reflexivity].
    intros Hfs Hne. rewrite poke_opt_other by exact Hne.
    now apply poke_opt_same.
Qed.

End Meeting.

(* --------------------------------------------------------------------- *)
(** ** Concrete runs *)
(* --------------------------------------------------------------------- *)

Lemma ipc_round_trip_witness :
  exists k' um' r,
    interp_state
      (Kernel.h_kernel _ demo_map_page demo_no_page demo_valid_dest 7 3 2 4098
         (Kernel.run_other _ demo_map_page demo_no_page demo_valid_dest 7 3 2
            4097 (ipc_send 7 4098 0xdeadbeef NULL 0) (fun _ => 0)))
      (ipc_recv 0x1000 NULL 0x1004) (demo_kernel, fun _ => 5)
    ≈ Ret ((k', um'), r) /\
    r = to_int32 0xdeadbeef /\ wrap32 r = 0xdeadbeef /\
    (0xdeadbeef < 2 ^ 31 -> r = 0xdeadbeef) /\
    um' 0x1000 = 4097 /\
    um' 0x1004 = 0.
Proof.
  apply (ipc_round_trip (list (Z * Z * Z)) demo_map_page demo_no_page
           demo_valid_dest 7 3 2);
    try reflexivity; try (unfold NULL; lia).
Defined.

Lemma recv_without_page_gets_none_witness :
  exists k' um' r,
    interp_state
      (Kernel.h_kernel _ demo_map_page demo_no_page demo_valid_dest 7 3 2 4098
         (Kernel.run_other _ demo_map_page demo_no_page demo_valid_dest 7 3 2
            4097 (ipc_send 7 4098 42 0x800000 7) (fun _ => 0)))
      (ipc_recv 0x1000 NULL 0x1004) (demo_kernel, fun _ => 5)
    ≈ Ret ((k', um'), r) /\
    um' 0x1004 = 0 /\
    Kernel.perm (Kernel.mailbox _ k' 4098) = 0 /\
    Kernel.pages _ k' = Kernel.pages _ demo_kernel.
Proof.
  apply (recv_without_page_gets_none (list (Z * Z * Z)) demo_map_page
           demo_no_page demo_valid_dest 7 3 2);
    try reflexivity; try (unfold NULL; lia).
Defined.

Lemma no_page_is_0xffffffff_witness :
  (exists m' r rest,
     interp_state h_mock (ipc_recv 0x1000 NULL 0x1004)
       (mock0 0 (fun _ => 0) (fun _ => 9) (fun _ => 0)) ≈ Ret (m', r) /\
     calls m' = [] ++ CRecv 0xffffffff :: rest /\
     Forall (fun c => is_store c = true) rest) /\
  (exists m' r rest,
     interp_state h_mock (ipc_recv 0x1000 0x800000 0x1004)
       (mock0 0 (fun _ => 0) (fun _ => 9) (fun _ => 0)) ≈ Ret (m', r) /\
     calls m' = [] ++ CRecv 0x800000 :: rest /\
     Forall (fun c => is_store c = true) rest) /\
  (exists m',
     calls m' = [] ++ rounds 2 4097 42 0xffffffff 7 /\
     interp_state h_mock (ipc_send 7 4097 42 NULL 7)
       (mock0 0 (fun k => if (k <? 1)%nat then -7 else 0)
          (fun _ => 0) (fun _ => 0)) ≈ Ret (m', tt)) /\
  (exists m',
     calls m' = [] ++ rounds 2 4097 42 0x800000 7 /\
     interp_state h_mock (ipc_send 7 4097 42 0x800000 7)
       (mock0 0 (fun k => if (k <? 1)%nat then -7 else 0)
          (fun _ => 0) (fun _ => 0)) ≈ Ret (m', tt)).
Proof.
  split; [|split; [|split]].
  - exact (proj1 (proj2 (proj2
      (no_page_is_0xffffffff 7 4097 42 NULL 7 0x1000 0x1004
         (mock0 0 (fun _ => 0) (fun _ => 9) (fun _ => 0)))))).
  - exact (proj1 (proj2 (proj2
      (no_page_is_0xffffffff 7 4097 42 0x800000 7 0x1000 0x1004
         (mock0 0 (fun _ => 0) (fun _ => 9) (fun _ => 0)))))).
  - destruct (proj2 (proj2 (proj2 (proj2
      (no_page_is_0xffffffff 7 4097 42 NULL 7 0x1000 0x1004
         (mock0 0 (fun k => if (k <? 1)%nat then -7 else 0)
            (fun _ => 0) (fun _ => 0)))))) 1%nat)
      as (m' & Hc & Hret & _).
    + intros k Hk. destruct k as [|k]; [reflexivity | lia].
    + cbn. lia.
    + exists m'. split; [exact Hc|]. apply Hret. cbn. lia.
  - destruct (proj2 (proj2 (proj2 (proj2
      (no_page_is_0xffffffff 7 4097 42 0x800000 7 0x1000 0x1004
         (mock0 0 (fun k => if (k <? 1)%nat then -7 else 0)
            (fun _ => 0) (fun _ => 0)))))) 1%nat)
      as (m' & Hc & Hret & _).
    + intros k Hk. destruct k as [|k]; [reflexivity | lia].
    + cbn. lia.
    + exists m'. split; [exact Hc|]. apply Hret. cbn. lia.
Defined.

Lemma ipc_recv_out_parameters_witness :
  (exists m' r,
     interp_state h_mock (ipc_recv NULL NULL 0x1004)
       (mock0 0 (fun _ => 0) (fun _ => 9) (fun _ => 5)) ≈ Ret (m', r) /\
     calls m' = [CRecv 0xffffffff; CStore 0x1004 9] /\
     mem m' NULL = 5) /\
  (exists m' r,
     interp_state h_mock (ipc_recv 0x1000 NULL NULL)
       (mock0 (-3) (fun _ => 0) (fun _ => 9) (fun _ => 5)) ≈ Ret (m', r) /\
     calls m' = [CRecv 0xffffffff; CStore 0x1000 0] /\
     mem m' NULL = 5).
Proof.
  split.
  - destruct (ipc_recv_out_parameters NULL NULL 0x1004
                (mock0 0 (fun _ => 0) (fun _ => 9) (fun _ => 5)))
      as (m' & r & x & y & Hrun & _ & Hok & _ & _ & Hc & _ & _ & Hm).
    exists m', r. split; [exact Hrun|]. split; [|exact Hm].
    rewrite (Hc eq_refl ltac:(unfold NULL; lia)).
    destruct (Hok ltac:(cbn; lia)) as [_ ->]. reflexivity.
  - destruct (ipc_recv_out_parameters 0x1000 NULL NULL
                (mock0 (-3) (fun _ => 0) (fun _ => 9) (fun _ => 5)))
      as (m' & r & x & y & Hrun & Hneg & _ & _ & Hc & _ & _ & _ & Hm).
    exists m', r. split; [exact Hrun|]. split; [|exact Hm].
    rewrite (Hc ltac:(unfold NULL; lia) eq_refl).
    destruct (Hneg ltac:(cbn; lia)) as [-> _]. reflexivity.
Defined.

Lemma ipc_recv_contract_witness :
  (exists m' r x y,
     interp_state h_mock (ipc_recv 0x1000 NULL 0x1004)
       (mock0 (-3) (fun _ => 0) (fun _ => 9) (fun _ => 5)) ≈ Ret (m', r) /\
     r = -3 /\ x = 0 /\ y = 0 /\ mem m' 0x1004 = y /\ mem m' 0x1000 = x) /\
  (interp_state
     (Kernel.h_kernel _ demo_map_page demo_no_page demo_valid_dest 7 3 2 4098
        (Kernel.idle _))
     (ipc_recv 0x1000 0x800001 0x1004) (demo_kernel, fun _ => 5)
   ≈ Ret ((demo_kernel, poke_opt 0x1004 0 (poke_opt 0x1000 0 (fun _ => 5))),
          - 3)) /\
  (exists k' um',
     interp_state
       (Kernel.h_kernel _ demo_map_page demo_no_page demo_valid_dest 7 3 2 4098
          (Kernel.run_other _ demo_map_page demo_no_page demo_valid_dest 7 3 2
             4097 (ipc_send 7 4098 42 0x400000 7) (fun _ => 0)))
       (ipc_recv 0x1000 NULL 0x1004) (demo_kernel, fun _ => 5)
     ≈ Ret ((k', um'), to_int32 42) /\
     um' 0x1004 = 0 /\ um' 0x1000 = 4097 /\
     Kernel.pages _ k' = Kernel.pages _ demo_kernel).
Proof.
  split; [|split].
  - destruct (proj1 (ipc_recv_contract (list (Z * Z * Z)) demo_map_page
                demo_no_page demo_valid_dest 7 3 2 ltac:(lia)
                0x1000 NULL 0x1004)
                (mock0 (-3) (fun _ => 0) (fun _ => 9) (fun _ => 5)))
      as (m' & r & x & y & Hrun & Hneg & _ & _ & Hps & Hfs).
    exists m', r, x, y. split; [exact Hrun|].
    destruct (Hneg ltac:(cbn; lia)) as (Hr & Hx & Hy).
    repeat split; try assumption.
    + apply Hps. unfold NULL. lia.
    + apply Hfs; unfold NULL; lia.
  - apply (proj1 (proj2 (ipc_recv_contract (list (Z * Z * Z)) demo_map_page
             demo_no_page demo_valid_dest 7 3 2 ltac:(lia)
             0x1000 0x800001 0x1004))); [lia | reflexivity].
  - destruct (proj2 (proj2 (ipc_recv_contract (list (Z * Z * Z)) demo_map_page
                demo_no_page demo_valid_dest 7 3 2 ltac:(lia)
                0x1000 NULL 0x1004))
                4097 4098 42 0x400000 7 demo_kernel (fun _ => 5) (fun _ => 0))
      as (k' & um' & Hrun & Hps & Hfs & Hpages); try reflexivity.
    exists k', um'. split; [exact Hrun|].
    split; [apply Hps; unfold NULL; lia|].
    split; [apply Hfs; unfold NULL; lia | exact Hpages].
Defined.

End IpcFacts.

(* ===================================================================== *)
(** * Properties of the stack backtrace *)
(* ===================================================================== *)

Module MonitorFacts.
Import Monitor.

(** Run the next event of the program through the handler. *)
Ltac run_event :=
  rewrite ?bind_bind;
  rewrite interp_state_bind, interp_state_trigger; cbn [h_mon];
  rewrite bind_ret_l; cbn [fst snd].

Lemma did_did_all (a : action) (l : list action) (s : Machine) :
  did a (did_all l s) = did_all (l ++ [a]) s.
Proof. unfold did, did_all. cbn. now rewrite app_assoc. Qed.

Lemma did_all_did_all (l1 l2 : list action) (s : Machine) :
  did_all l2 (did_all l1 s) = did_all (l1 ++ l2) s.
Proof. unfold did_all. cbn. now rewrite app_assoc. Qed.

Lemma did_is_did_all (a : action) (s : Machine) : did a s = did_all [a] s.
Proof. reflexivity. Qed.

(** One turn of the argument loop, for an index below 5. *)
Lemma interp_print_arg (ebp i : Z) (s : Machine)
  (body := fun i : Z =>
       if i <? 5 then
         w <- load (wrap32 (ebp + 8 + 4 * i)) ;;
         cprintf fmt_arg [AInt w] ;;
         Ret (inl (wrap32 (i + 1)))
       else Ret (inr tt)) :
  0 <= i < 5 ->
  interp_state h_mon (ITree.iter body i) s
  ≈ interp_state h_mon (ITree.iter body (i + 1))
      (did_all [ALoad (wrap32 (ebp + 8 + 4 * i));
                APrint fmt_arg [AInt (memory s (wrap32 (ebp + 8 + 4 * i)))]] s).
Proof.
  intros Hi. rewrite unfold_iter at 1. unfold body at 1.
  assert (Hlt : (i <? 5) = true) by (apply Z.ltb_lt; lia). rewrite Hlt.
  unfold load, cprintf.
  run_event. run_event. rewrite bind_ret_l.
  rewrite interp_state_tau, tau_eutt.
  rewrite !did_is_did_all, did_all_did_all. cbn [app].
  replace (wrap32 (i + 1)) with (i + 1)
    by (unfold wrap32; rewrite Z.mod_small; lia).
  reflexivity.
Qed.

(** The whole argument loop: five reads, five prints. *)
Lemma interp_print_args (ebp : Z) (s : Machine) :
  interp_state h_mon (print_args ebp) s
  ≈ Ret (did_all
           [ALoad (wrap32 (ebp + 8));
            APrint fmt_arg [AInt (memory s (wrap32 (ebp + 8)))];
            ALoad (wrap32 (ebp + 12));
            APrint fmt_arg [AInt (memory s (wrap32 (ebp + 12)))];
            ALoad (wrap32 (ebp + 16));
            APrint fmt_arg [AInt (memory s (wrap32 (ebp + 16)))];
            ALoad (wrap32 (ebp + 20));
            APrint fmt_arg [AInt (memory s (wrap32 (ebp + 20)))];
            ALoad (wrap32 (ebp + 24));
            APrint fmt_arg [AInt (memory s (wrap32 (ebp + 24)))]] s, tt).
Proof.
  unfold print_args.
  rewrite (interp_print_arg ebp 0) by lia. change (0 + 1) with 1.
  rewrite (interp_print_arg ebp 1) by lia. change (1 + 1) with 2.
  rewrite (interp_print_arg ebp 2) by lia. change (2 + 1) with 3.
  rewrite (interp_print_arg ebp 3) by lia. change (3 + 1) with 4.
  rewrite (interp_print_arg ebp 4) by lia. change (4 + 1) with 5.
  rewrite unfold_iter. change (5 <? 5) with false. cbv iota.
  rewrite bind_ret_l, interp_state_ret.
  rewrite !did_all_did_all. cbn [app memory did_all].
  replace (ebp + 8 + 4 * 0) with (ebp + 8) by lia.
  replace (ebp + 8 + 4 * 1) with (ebp + 12) by lia.
  replace (ebp + 8 + 4 * 2) with (ebp + 16) by lia.
  replace (ebp + 8 + 4 * 3) with (ebp + 20) by lia.
  replace (ebp + 8 + 4 * 4) with (ebp + 24) by lia.
  reflexivity.
Qed.

(** One pass through the body of the [while] loop. *)
Lemma interp_step (ebp : Z) (s : Machine) :
  ebp <> 0 ->
  interp_state h_mon (backtrace_step ebp) s
  ≈ Ret (did_all (frame_actions (memory s) (debuginfo s) ebp) s,
         inl (memory s ebp)).
Proof.
  intros Hebp. unfold backtrace_step.
  apply Z.eqb_neq in Hebp. rewrite Hebp. cbn [negb].
  unfold load, cprintf, debuginfo_eip.
  run_event. run_event.
  rewrite interp_state_bind, interp_print_args, bind_ret_l. cbn [fst snd].
  run_event. run_event. run_event. run_event.
  rewrite interp_state_ret.
  rewrite !did_is_did_all, !did_all_did_all.
  cbn [app memory debuginfo did_all]. reflexivity.
Qed.

Lemma interp_stop (s : Machine) :
  interp_state h_mon (ITree.iter backtrace_step 0) s ≈ Ret (s, tt).
Proof.
  rewrite unfold_iter. unfold backtrace_step at 1.
  change (negb (0 =? 0)) with false. cbv iota.
  rewrite bind_ret_l, interp_state_ret. reflexivity.
Qed.

Lemma interp_advance (ebp : Z) (s : Machine) :
  ebp <> 0 ->
  interp_state h_mon (ITree.iter backtrace_step ebp) s
  ≈ interp_state h_mon (ITree.iter backtrace_step (memory s ebp))
      (did_all (frame_actions (memory s) (debuginfo s) ebp) s).
Proof.
  intros Hebp. rewrite unfold_iter at 1.
  rewrite interp_state_bind, (interp_step ebp s Hebp), bind_ret_l.
  cbn [fst snd]. rewrite interp_state_tau, tau_eutt. reflexivity.
Qed.

Lemma did_all_nil (s : Machine) : did_all [] s = s.
Proof. destruct s. unfold did_all. cbn. now rewrite app_nil_r. Qed.

(** The walk over a chain that reaches 0. *)
Lemma interp_walk (n : nat) :
  forall (ebp : Z) (s : Machine) (fps : list Z),
    frame_chain (memory s) n ebp = Some fps ->
    interp_state h_mon (ITree.iter backtrace_step ebp) s
    ≈ Ret (did_all
             (flat_map (frame_actions (memory s) (debuginfo s)) fps) s, tt).
Proof.
  induction n as [|n IH]; intros ebp s fps Hchain; cbn [frame_chain] in Hchain.
  - destruct (Z.eqb_spec ebp 0) as [->|Hne]; [|discriminate].
    inversion Hchain; subst fps. cbn [flat_map].
    rewrite did_all_nil. apply interp_stop.
  - destruct (Z.eqb_spec ebp 0) as [->|Hne].
    + inversion Hchain; subst fps. cbn [flat_map].
      rewrite did_all_nil. apply interp_stop.
    + destruct (frame_chain (memory s) n (memory s ebp)) as [rest|] eqn:Hrest;
        [|discriminate].
      inversion Hchain; subst fps. cbn [flat_map].
      rewrite (interp_advance ebp s Hne).
      rewrite (IH (memory s ebp)
                 (did_all (frame_actions (memory s) (debuginfo s) ebp) s) rest)
        by exact Hrest.
      cbn [memory debuginfo did_all]. rewrite did_all_did_all. reflexivity.
Qed.

Lemma console_app (l1 l2 : list action) :
  console (l1 ++ l2) = console l1 ++ console l2.
Proof.
  induction l1 as [|[a|e|f args] l1 IH]; cbn; [reflexivity| | |];
    now rewrite ?IH.
Qed.

Lemma console_frames (mem : Z -> Z) (dbg : Z -> Eipdebuginfo) (fps : list Z) :
  console (flat_map (frame_actions mem dbg) fps)
  = flat_map descriptor_lines (List.map (descriptor_at mem dbg) fps).
Proof.
  induction fps as [|fp fps IH]; [reflexivity|].
  cbn [flat_map List.map]. rewrite console_app, IH. reflexivity.
Qed.

(** A chain found by [frame_chain] is the frame pointers met by following
    the saved frame pointer from [ebp]; none of them is 0 and the next
    one after the last is. *)
Lemma frame_chain_spec (mem : Z -> Z) (n : nat) :
  forall (ebp : Z) (fps : list Z),
    frame_chain mem n ebp = Some fps ->
    (forall i, (i < length fps)%nat ->
       nth i fps 0 = Nat.iter i mem ebp /\ nth i fps 0 <> 0) /\
    Nat.iter (length fps) mem ebp = 0.
Proof.
  assert (Hiter : forall i x, Nat.iter i mem (mem x) = Nat.iter (S i) mem x).
  { induction i as [|i IHi]; intros x; [reflexivity|].
    change (Nat.iter (S i) mem (mem x)) with (mem (Nat.iter i mem (mem x))).
    now rewrite IHi. }
  assert (Hnil : forall ebp fps, ebp = 0 -> Some (@nil Z) = Some fps ->
    (forall i, (i < length fps)%nat ->
       nth i fps 0 = Nat.iter i mem ebp /\ nth i fps 0 <> 0) /\
    Nat.iter (length fps) mem ebp = 0).
  { intros ebp fps -> Heq. inversion Heq. cbn. split; [intros i Hi; lia|].
    reflexivity. }
  induction n as [|n IH]; intros ebp fps Hchain; cbn [frame_chain] in Hchain.
  - destruct (Z.eqb_spec ebp 0) as [He|Hne]; [now apply Hnil | discriminate].
  - destruct (Z.eqb_spec ebp 0) as [He|Hne]; [now apply Hnil|].
    destruct (frame_chain mem n (mem ebp)) as [rest|] eqn:Hrest;
      [|discriminate].
    inversion Hchain; subst fps. destruct (IH _ _ Hrest) as [Hnth Hend].
    cbn [length]. split.
    + intros [|i] Hi; cbn [nth].
      * split; [reflexivity | exact Hne].
      * rewrite <- Hiter. apply Hnth. lia.
    + rewrite <- Hiter. exact Hend.
Qed.

Lemma interp_backtrace (argc argv tf : Z) (s : Machine) (n : nat)
  (fps : list Z) :
  frame_chain (memory s) n (reg_ebp s) = Some fps ->
  interp_state h_mon (mon_backtrace argc argv tf) s
  ≈ Ret (did_all
           (APrint fmt_header []
            :: flat_map (frame_actions (memory s) (debuginfo s)) fps) s, 0).
Proof.
  intros Hchain. unfold mon_backtrace, read_ebp, read_eip, cprintf.
  run_event. run_event. run_event.
  rewrite interp_state_bind.
  rewrite (interp_walk n (reg_ebp s) (did (APrint fmt_header []) s) fps)
    by exact Hchain.
  rewrite bind_ret_l, interp_state_ret. cbn [fst snd memory debuginfo did].
  rewrite did_is_did_all, did_all_did_all. reflexivity.
Qed.

(** C6.  If the frame-pointer chain from the starting frame pointer
    reaches 0 after finitely many frames, [mon_backtrace] terminates and
    returns 0; after the header it has printed exactly one descriptor
    per frame of the chain, innermost first (the frames are the starting
    frame pointer, the one saved there, and so on); the walk stops at the
    first frame pointer that is 0; and calling it again in the state it
    left prints the same descriptors once more. *)
Theorem backtrace_terminates
  (argc argv tf : Z) (s : Machine) (n : nat) (fps : list Z) :
  frame_chain (memory s) n (reg_ebp s) = Some fps ->
  exists (s' s'' : Machine) (ds : list FrameDescriptor),
    interp_state h_mon (mon_backtrace argc argv tf) s ≈ Ret (s', 0) /\
    ds = List.map (descriptor_at (memory s) (debuginfo s)) fps /\
    length ds = length fps /\
    console (trace s')
    = console (trace s) ++ (fmt_header, []) :: flat_map descriptor_lines ds /\
    (forall i, (i < length fps)%nat ->
       nth i fps 0 = Nat.iter i (memory s) (reg_ebp s) /\
       nth i fps 0 <> 0) /\
    Nat.iter (length fps) (memory s) (reg_ebp s) = 0 /\
    interp_state h_mon (mon_backtrace argc argv tf) s' ≈ Ret (s'', 0) /\
    console (trace s'')
    = console (trace s') ++ (fmt_header, []) :: flat_map descriptor_lines ds.
Proof.
  intros Hchain.
  set (out := APrint fmt_header []
              :: flat_map (frame_actions (memory s) (debuginfo s)) fps).
  exists (did_all out s), (did_all out (did_all out s)),
    (List.map (descriptor_at (memory s) (debuginfo s)) fps).
  assert (Hout : console out
                 = (fmt_header, [])
                   :: flat_map descriptor_lines
                        (List.map (descriptor_at (memory s) (debuginfo s)) fps)).
  { unfold out. cbn [console]. now rewrite console_frames. }
  destruct (frame_chain_spec _ _ _ _ Hchain) as [Hnth Hend].
  split; [now apply interp_backtrace with (n := n)|].
  split; [reflexivity|]. split; [apply length_map|].
  split; [cbn [trace did_all]; now rewrite console_app, Hout|].
  split; [exact Hnth|]. split; [exact Hend|].
  split.
  - apply (interp_backtrace argc argv tf (did_all out s) n fps). exact Hchain.
  - cbn [trace did_all]. now rewrite !console_app, Hout.
Qed.

(** C7.  One step of the walk at a frame pointer [ebp] other than 0:
    the return address is read at [ebp+4] and printed with [ebp]; five
    argument words are read at [ebp+8], [ebp+12], [ebp+16], [ebp+20],
    [ebp+24] and printed, whatever the callee's arity; a newline ends the
    line; the debug information is asked for the return address and the
    second line shows file, line, function name and the return address
    minus the start of the function; the walk goes on at the frame
    pointer read at [ebp].  The step itself ends, having done exactly
    this and nothing else, with the saved frame pointer as the next
    [ebp]; so the loop goes on from there, and on a chain that reaches 0
    the whole walk ends having done this for [ebp] first and then for
    every later frame.  Addresses and the offset are [unsigned int], so
    they wrap at 2^32. *)
Theorem backtrace_step_reads_and_prints (ebp : Z) (s : Machine) :
  ebp <> 0 ->
  let mem := memory s in
  let eip := mem (wrap32 (ebp + 4)) in
  let info := debuginfo s eip in
  let step :=
    [ALoad (wrap32 (ebp + 4));
     APrint fmt_frame [AInt ebp; AInt eip];
     ALoad (wrap32 (ebp + 8));  APrint fmt_arg [AInt (mem (wrap32 (ebp + 8)))];
     ALoad (wrap32 (ebp + 12)); APrint fmt_arg [AInt (mem (wrap32 (ebp + 12)))];
     ALoad (wrap32 (ebp + 16)); APrint fmt_arg [AInt (mem (wrap32 (ebp + 16)))];
     ALoad (wrap32 (ebp + 20)); APrint fmt_arg [AInt (mem (wrap32 (ebp + 20)))];
     ALoad (wrap32 (ebp + 24)); APrint fmt_arg [AInt (mem (wrap32 (ebp + 24)))];
     APrint nl [];
     AResolve eip;
     APrint fmt_where
       [AStr (eip_file info); AInt (eip_line info);
        AInt (eip_fn_namelen info); AStr (eip_fn_name info);
        AInt (wrap32 (eip - eip_fn_addr info))];
     ALoad ebp] in
  interp_state h_mon (backtrace_step ebp) s
  ≈ Ret (did_all step s, inl (mem ebp)) /\
  interp_state h_mon (ITree.iter backtrace_step ebp) s
  ≈ interp_state h_mon (ITree.iter backtrace_step (mem ebp)) (did_all step s) /\
  (forall (n : nat) (fps : list Z),
     frame_chain mem n ebp = Some fps ->
     exists rest : list Z,
       fps = ebp :: rest /\
       interp_state h_mon (ITree.iter backtrace_step ebp) s
       ≈ Ret (did_all
                (step ++ flat_map (frame_actions mem (debuginfo s)) rest) s,
              tt)) /\
  loads step
  = [wrap32 (ebp + 4); wrap32 (ebp + 8); wrap32 (ebp + 12); wrap32 (ebp + 16);
     wrap32 (ebp + 20); wrap32 (ebp + 24); ebp] /\
  console step = descriptor_lines (descriptor_at mem (debuginfo s) ebp) /\
  (0 <= eip_fn_addr info <= eip -> eip < 2 ^ 32 ->
   wrap32 (eip - eip_fn_addr info) = eip - eip_fn_addr info) /\
  (0 <= ebp -> ebp + 24 < 2 ^ 32 ->
   forall d, 0 <= d <= 24 -> wrap32 (ebp + d) = ebp + d).
Proof.
  intros Hebp mem eip info step.
  split; [exact (interp_step ebp s Hebp)|].
  split; [exact (interp_advance ebp s Hebp)|].
  split.
  - intros n fps Hchain.
    assert (Hshape : exists rest, fps = ebp :: rest).
    { destruct n as [|n]; cbn [frame_chain] in Hchain;
        destruct (Z.eqb_spec ebp 0) as [He|_]; try contradiction;
        [discriminate|].
      destruct (frame_chain mem n (mem ebp)) as [rest|];
        [|discriminate].
      inversion Hchain. now exists rest. }
    destruct Hshape as (rest & ->). exists rest. split; [reflexivity|].
    exact (interp_walk n ebp s (ebp :: rest) Hchain).
  - split; [reflexivity|]. split; [reflexivity|].
    split; intros; unfold wrap32; apply Z.mod_small; lia.
Qed.

Lemma backtrace_terminates_witness :
  exists (s' s'' : Machine) (ds : list FrameDescriptor),
    interp_state h_mon (mon_backtrace 1 0 0) Demo.demo_machine ≈ Ret (s', 0) /\
    ds = List.map (descriptor_at (memory Demo.demo_machine)
                     (debuginfo Demo.demo_machine))
           [0xf010ff18; 0xf010ff38; 0xf010ff58] /\
    length ds = 3%nat /\
    console (trace s')
    = console (trace Demo.demo_machine)
      ++ (fmt_header, []) :: flat_map descriptor_lines ds /\
    (forall i, (i < 3)%nat ->
       nth i [0xf010ff18; 0xf010ff38; 0xf010ff58] 0
       = Nat.iter i (memory Demo.demo_machine) (reg_ebp Demo.demo_machine) /\
       nth i [0xf010ff18; 0xf010ff38; 0xf010ff58] 0 <> 0) /\
    Nat.iter 3 (memory Demo.demo_machine) (reg_ebp Demo.demo_machine) = 0 /\
    interp_state h_mon (mon_backtrace 1 0 0) s' ≈ Ret (s'', 0) /\
    console (trace s'')
    = console (trace s') ++ (fmt_header, []) :: flat_map descriptor_lines ds.
Proof.
  apply (backtrace_terminates 1 0 0 Demo.demo_machine 3
           [0xf010ff18; 0xf010ff38; 0xf010ff58]).
  reflexivity.
Defined.

Lemma backtrace_step_reads_and_prints_witness :
  interp_state h_mon (backtrace_step 0xf010ff18) Demo.demo_machine
  ≈ Ret (did_all
           [ALoad 0xf010ff1c;
            APrint fmt_frame [AInt 0xf010ff18; AInt 0xf0100a62];
            ALoad 0xf010ff20; APrint fmt_arg [AInt 1];
            ALoad 0xf010ff24; APrint fmt_arg [AInt 2];
            ALoad 0xf010ff28; APrint fmt_arg [AInt 3];
            ALoad 0xf010ff2c; APrint fmt_arg [AInt 4];
            ALoad 0xf010ff30; APrint fmt_arg [AInt 5];
            APrint nl [];
            AResolve 0xf0100a62;
            APrint fmt_where
              [AStr "kern/monitor.c"; AInt 143; AInt 7; AStr "monitor";
               AInt 0x62];
            ALoad 0xf010ff18] Demo.demo_machine,
         inl 0xf010ff38).
Proof.
  apply (proj1 (backtrace_step_reads_and_prints 0xf010ff18 Demo.demo_machine
                  ltac:(lia))).
Defined.

End MonitorFacts.

(* ===================================================================== *)
(** * Properties of the commands and the command interpreter *)
(* ===================================================================== *)

Module ShellFacts.
Import Monitor Shell.

Section Interpreter.

Variables KERNBASE E_NO_MEM : Z.
Variables _start etext edata end_ : Z.
Variable argv_addr : Z.
Variable strchr : string -> ascii -> bool.
Variable strcmp : string -> string -> Z.

(** The contracts of the two library functions: [strchr (s, c)] finds a
    character other than NUL exactly when it occurs in [s]; [strcmp]
    returns 0 exactly on equal strings. *)
Hypothesis strchr_spec :
  forall s c, c <> NUL ->
    strchr s c = existsb (Ascii.eqb c) (list_ascii_of_string s).
Hypothesis strcmp_spec : forall a b, strcmp a b = 0 <-> a = b.

Local Abbreviation is_sep := (Shell.is_sep strchr).
Local Abbreviation in_word := (Shell.in_word strchr).
Local Abbreviation gobble := (Shell.gobble strchr).
Local Abbreviation skip_word := (Shell.skip_word strchr).
Local Abbreviation parse_loop := (Shell.parse_loop strchr).
Local Abbreviation parse := (Shell.parse strchr).
Local Abbreviation words := (split_words is_space []).

Lemma is_space_NUL : is_space NUL = false.
Proof. reflexivity. Qed.

Lemma is_sep_space (c : ascii) : is_sep c = is_space c.
Proof.
  unfold Shell.is_sep. destruct (Ascii.eqb_spec c NUL) as [->|Hc]; cbn [negb andb].
  - symmetry. apply is_space_NUL.
  - now rewrite strchr_spec.
Qed.

Lemma in_word_char (c : ascii) :
  in_word c = negb (Ascii.eqb c NUL) && negb (is_space c).
Proof.
  unfold Shell.in_word. destruct (Ascii.eqb_spec c NUL) as [->|Hc];
    cbn [negb andb]; [reflexivity|].
  now rewrite strchr_spec.
Qed.

(** The first inner loop: it zeroes a run of whitespace and stops in front
    of a character that is not whitespace. *)
Lemma gobble_spec (rest : list ascii) :
  exists s : list ascii,
    rest = s ++ snd (gobble rest) /\
    Forall2 kept_or_zeroed s (fst (gobble rest)) /\
    zero_seps is_space rest
    = fst (gobble rest) ++ zero_seps is_space (snd (gobble rest)) /\
    (forall pos,
       word_starts is_space pos false rest
       = word_starts is_space (pos + length (fst (gobble rest))) false
           (snd (gobble rest))) /\
    match snd (gobble rest) with
    | [] => True
    | c :: _ => is_space c = false
    end.
Proof.
  induction rest as [|c rest IH].
  - exists []. cbn. split; [|split; [|split; [|split]]]; auto.
  - cbn [Shell.gobble]. rewrite is_sep_space.
    destruct (is_space c) eqn:Hc.
    + destruct IH as (s & Hs & Hz & Hzero & Hw & Hhd).
      exists (c :: s). cbn [fst snd].
      assert (Hnul : Ascii.eqb c NUL = false).
      { destruct (Ascii.eqb_spec c NUL) as [->|]; [|reflexivity].
        rewrite is_space_NUL in Hc. discriminate. }
      split; [|split; [|split; [|split]]].
      * cbn [app]. now rewrite <- Hs.
      * constructor; [right; auto | exact Hz].
      * cbn [zero_seps app]. now rewrite Hnul, Hc, Hzero.
      * intros pos. cbn [word_starts length]. rewrite Hnul, Hc, Hw.
        f_equal. lia.
      * exact Hhd.
    + exists []. cbn [fst snd app length].
      split; [|split; [|split; [|split]]]; auto.
      intros pos. now rewrite Nat.add_0_r.
Qed.

(** The second inner loop: it passes a run of word characters and stops
    in front of whitespace, a NUL or the end. *)
Lemma skip_word_spec (rest : list ascii) :
  rest = fst (skip_word rest) ++ snd (skip_word rest) /\
  zero_seps is_space rest
  = fst (skip_word rest) ++ zero_seps is_space (snd (skip_word rest)) /\
  (forall pos inw,
     word_starts is_space pos inw rest
     = (if inw then []
        else match fst (skip_word rest) with [] => [] | _ => [pos] end)
       ++ word_starts is_space (pos + length (fst (skip_word rest))) false
            (snd (skip_word rest))).
Proof.
  induction rest as [|c rest IH].
  - cbn. split; [|split]; auto. intros pos inw. now destruct inw.
  - cbn [Shell.skip_word]. rewrite in_word_char.
    destruct (Ascii.eqb c NUL) eqn:Hnul; cbn [negb andb fst snd app length].
    + split; [|split]; auto.
      intros pos inw. cbn [word_starts]. rewrite Hnul. now destruct inw.
    + destruct (is_space c) eqn:Hc; cbn [negb fst snd app length].
      * split; [|split]; auto.
        intros pos inw. cbn [word_starts]. rewrite Hnul, Hc, Nat.add_0_r.
        now destruct inw.
      * destruct IH as (Hs & Hzero & Hw). split; [|split].
        -- now rewrite <- Hs.
        -- cbn [zero_seps]. now rewrite Hnul, Hc, Hzero.
        -- intros pos inw. cbn [word_starts]. rewrite Hnul, Hc.
           rewrite (Hw (S pos) true). cbn [app].
           replace (S pos + length (fst (skip_word rest)))%nat
             with (pos + S (length (fst (skip_word rest))))%nat by lia.
           reflexivity.
Qed.

Lemma kept_refl (l : list ascii) : Forall2 kept_or_zeroed l l.
Proof. induction l; constructor; [now left | assumption]. Qed.

(** The argument loop, from any pass on: with at most 15 arguments in
    all it ends with the separators zeroed and a pointer to each word;
    with more it ends at the early return, having zeroed whitespace
    only. *)
Lemma parse_loop_spec (fuel : nat) :
  forall (done rest : list ascii) (argv : list nat),
    (length rest < fuel)%nat ->
    (length argv <= 15)%nat ->
    ((length argv
      + length (word_starts is_space (length done) false rest) <= 15)%nat ->
     parse_loop fuel done rest argv
     = Some (Args (done ++ zero_seps is_space rest)
                  (argv ++ word_starts is_space (length done) false rest))) /\
    ((15 < length argv
           + length (word_starts is_space (length done) false rest))%nat ->
     exists m,
       parse_loop fuel done rest argv = Some (TooMany (done ++ m)) /\
       Forall2 kept_or_zeroed rest m).
Proof.
  induction fuel as [|fuel IH]; intros done rest argv Hfuel Hargv; [lia|].
  cbn [Shell.parse_loop].
  destruct (gobble_spec rest) as (s & Hs & Hz & Hzero & Hw & Hhd).
  rewrite Hzero, (Hw (length done)).
  assert (Hlen : length rest
                 = (length s + length (snd (gobble rest)))%nat).
  { rewrite Hs at 1. now rewrite length_app. }
  assert (Hzlen : length (fst (gobble rest)) = length s).
  { symmetry. eapply Forall2_length. exact Hz. }
  revert Hs Hz Hhd Hlen Hzlen.
  generalize (fst (gobble rest)) as z. generalize (snd (gobble rest)) as r1.
  intros r1 z Hs Hz Hhd Hlen Hzlen. clear Hzero Hw.
  destruct r1 as [|c r1].
  - cbn [zero_seps word_starts length]. rewrite !app_nil_r. split; [auto|].
    intros Hmany. lia.
  - destruct (Ascii.eqb c NUL) eqn:Hnul.
    + cbn [zero_seps word_starts length]. rewrite Hnul, app_nil_r.
      rewrite <- app_assoc. split; [auto|]. intros Hmany. cbn in Hmany. lia.
    + destruct (skip_word_spec (c :: r1)) as (Hs2 & Hzero2 & Hw2).
      assert (Hword : in_word c = true).
      { rewrite in_word_char, Hnul, Hhd. reflexivity. }
      assert (Hne : exists w0 w', fst (skip_word (c :: r1)) = w0 :: w').
      { cbn [Shell.skip_word]. rewrite Hword. cbn [fst]. eauto. }
      destruct Hne as (w0 & w' & Hwq).
      rewrite Hzero2, (Hw2 (length done + length z)%nat false), Hwq.
      rewrite <- Hwq.
      assert (Hlen2 : length (c :: r1)
                      = (length (fst (skip_word (c :: r1)))
                         + length (snd (skip_word (c :: r1))))%nat).
      { rewrite Hs2 at 1. now rewrite length_app. }
      assert (Hwlen : (1 <= length (fst (skip_word (c :: r1))))%nat).
      { rewrite Hwq. cbn. lia. }
      revert Hs2 Hlen2 Hwlen.
      generalize (fst (skip_word (c :: r1))) as w.
      generalize (snd (skip_word (c :: r1))) as r2.
      intros r2 w Hs2 Hlen2 Hwlen. clear Hzero2 Hw2 Hwq.
      cbn [app length]. unfold MAXARGS.
      destruct (Z.eqb_spec (Z.of_nat (length argv)) (16 - 1)) as [H15|H15].
      * split; [intros Hfew; lia|]. intros _.
        exists (z ++ c :: r1). split; [now rewrite app_assoc|].
        rewrite Hs. apply Forall2_app; [exact Hz | apply kept_refl].
      * destruct (IH ((done ++ z) ++ w) r2 (argv ++ [length (done ++ z)]))
          as [Hfew Hmany].
        { lia. }
        { rewrite length_app. cbn [length]. lia. }
        rewrite !length_app in Hfew, Hmany. cbn [length] in Hfew, Hmany.
        split.
        -- intros Hle. rewrite !length_app. rewrite Hfew by lia.
           rewrite <- !app_assoc. reflexivity.
        -- intros Hgt. destruct Hmany as (m & Hm & Hkept); [lia|].
           exists (z ++ w ++ m). split.
           ++ rewrite !length_app. rewrite Hm, <- !app_assoc. reflexivity.
           ++ rewrite Hs, Hs2. apply Forall2_app; [exact Hz|].
              apply Forall2_app; [apply kept_refl | exact Hkept].
Qed.

End Interpreter.

(** *** Reading the arguments back from the array *)

Lemma cstring_app (cur x : list ascii) :
  Forall (fun c => Ascii.eqb c NUL = false) cur ->
  cstring (cur ++ x) = cur ++ cstring x.
Proof.
  induction 1 as [|c cur Hc _ IH]; [reflexivity|].
  cbn [app cstring]. now rewrite Hc, IH.
Qed.

Lemma skipn_length_app (pre x : list ascii) : skipn (length pre) (pre ++ x) = x.
Proof. induction pre as [|c pre IH]; [reflexivity | exact IH]. Qed.

Lemma arg_strings_app (mem : list ascii) (a b : list nat) :
  arg_strings mem (a ++ b) = arg_strings mem a ++ arg_strings mem b.
Proof. unfold arg_strings. apply map_app. Qed.

(** The word being read, once the array holds a NUL (or ends) behind
    it. *)
Lemma arg_strings_cur (pre cur x : list ascii) :
  Forall (fun c => Ascii.eqb c NUL = false) cur ->
  cstring x = [] ->
  arg_strings (pre ++ cur ++ x)
    match cur with [] => [] | _ => [length pre] end
  = List.map string_of_list_ascii (flush cur).
Proof.
  intros Hcur Hx. destruct cur as [|c cur]; [reflexivity|].
  cbn [arg_strings List.map flush].
  now rewrite skipn_length_app, (cstring_app _ _ Hcur), Hx, app_nil_r.
Qed.

(** Read through the stored pointers, the zeroed array gives back the
    words of the line. *)
Lemma arg_strings_words (l : list ascii) :
  forall pre cur : list ascii,
    Forall (fun c => Ascii.eqb c NUL = false) cur ->
    arg_strings (pre ++ cur ++ zero_seps is_space l)
      (match cur with [] => [] | _ => [length pre] end
       ++ word_starts is_space (length pre + length cur)
            match cur with [] => false | _ => true end l)
    = List.map string_of_list_ascii (split_words is_space cur l).
Proof.
  induction l as [|c l IH]; intros pre cur Hcur.
  - cbn [zero_seps word_starts split_words].
    pose proof (arg_strings_cur pre cur [] Hcur eq_refl) as H.
    rewrite !app_nil_r in *. exact H.
  - cbn [zero_seps word_starts split_words].
    destruct (Ascii.eqb c NUL) eqn:Hnul.
    + rewrite app_nil_r. apply arg_strings_cur; [exact Hcur|].
      cbn [cstring]. now rewrite Hnul.
    + destruct (is_space c) eqn:Hc.
      * rewrite arg_strings_app, map_app. f_equal.
        -- now apply arg_strings_cur.
        -- specialize (IH (pre ++ cur ++ [NUL]) [] (Forall_nil _)).
           cbn [app length] in IH. rewrite <- IH.
           rewrite !length_app. cbn [length].
           replace (length pre + (length cur + 1) + 0)%nat
             with (S (length pre + length cur)) by lia.
           rewrite <- !app_assoc. reflexivity.
      * specialize (IH pre (cur ++ [c])).
        rewrite <- IH by (apply Forall_app; split; [exact Hcur|];
                          constructor; [exact Hnul | constructor]).
        rewrite length_app. cbn [length].
        replace (length pre + (length cur + 1))%nat
          with (S (length pre + length cur)) by lia.
        rewrite <- !app_assoc. cbn [app].
        destruct cur as [|c0 cur]; cbn [app length].
        -- now rewrite Nat.add_0_r.
        -- reflexivity.
Qed.

Lemma zero_seps_kept (l : list ascii) :
  Forall2 kept_or_zeroed l (zero_seps is_space l).
Proof.
  induction l as [|c l IH]; [constructor|].
  cbn [zero_seps]. destruct (Ascii.eqb c NUL).
  - apply kept_refl.
  - constructor; [|exact IH].
    destruct (is_space c) eqn:Hc; [right; auto | now left].
Qed.

(** Every word is non-empty and holds neither NUL nor whitespace. *)
Lemma split_words_clean (l : list ascii) :
  forall cur : list ascii,
    Forall (fun c => Ascii.eqb c NUL = false /\ is_space c = false) cur ->
    Forall (fun w => w <> [] /\
              Forall (fun c => Ascii.eqb c NUL = false /\ is_space c = false) w)
           (split_words is_space cur l).
Proof.
  assert (Hflush : forall cur,
    Forall (fun c => Ascii.eqb c NUL = false /\ is_space c = false) cur ->
    Forall (fun w => w <> [] /\
              Forall (fun c => Ascii.eqb c NUL = false /\ is_space c = false) w)
           (flush cur)).
  { intros [|c cur] H; cbn; constructor; [|constructor].
    split; [discriminate | exact H]. }
  induction l as [|c l IH]; intros cur Hcur; cbn [split_words].
  - now apply Hflush.
  - destruct (Ascii.eqb c NUL) eqn:Hnul; [now apply Hflush|].
    destruct (is_space c) eqn:Hc.
    + apply Forall_app. split; [now apply Hflush | apply IH; constructor].
    + apply IH. apply Forall_app. split; [exact Hcur|].
      constructor; [split; assumption | constructor].
Qed.

Section Run.

Variables KERNBASE E_NO_MEM : Z.
Variables _start etext edata end_ : Z.
Variable argv_addr : Z.
Variable strchr : string -> ascii -> bool.
Variable strcmp : string -> string -> Z.

Hypothesis strchr_spec :
  forall s c, c <> NUL ->
    strchr s c = existsb (Ascii.eqb c) (list_ascii_of_string s).
Hypothesis strcmp_spec : forall a b, strcmp a b = 0 <-> a = b.

Local Abbreviation parse := (Shell.parse strchr).
Local Abbreviation words := (split_words is_space []).
Local Abbreviation call :=
  (Shell.call KERNBASE E_NO_MEM _start etext edata end_ argv_addr).
Local Abbreviation lookup :=
  (Shell.lookup KERNBASE E_NO_MEM _start etext edata end_ argv_addr strcmp).
Local Abbreviation runcmd :=
  (Shell.runcmd KERNBASE E_NO_MEM _start etext edata end_ argv_addr
     strchr strcmp).
Local Abbreviation monitor :=
  (Shell.monitor KERNBASE E_NO_MEM _start etext edata end_ argv_addr
     strchr strcmp).

Lemma starts_count (buf : list ascii) :
  length (word_starts is_space 0 false buf) = length (words buf).
Proof.
  pose proof (arg_strings_words buf [] [] (Forall_nil _)) as H.
  cbn [app length] in H. apply (f_equal (@length string)) in H.
  unfold arg_strings in H. now rewrite !length_map in H.
Qed.

Lemma parse_few (buf : list ascii) :
  (length (words buf) <= 15)%nat ->
  parse buf
  = Some (Args (zero_seps is_space buf) (word_starts is_space 0 false buf)).
Proof.
  intros Hfew.
  destruct (parse_loop_spec strchr strchr_spec (S (length buf)) [] buf [])
    as [Hargs _]; [lia | cbn; lia |].
  cbn [app length] in Hargs. apply Hargs. rewrite starts_count. exact Hfew.
Qed.

(** X1.  On a line of at most 15 words the argument loop of [runcmd]
    ends with one pointer per word, and the strings the pointers lead to
    in the array it leaves are the words of the line in order: the
    maximal runs of characters other than tab, CR, LF and space, up to
    the first NUL. *)
Theorem runcmd_arguments_are_the_words (buf : list ascii) :
  (length (words buf) <= 15)%nat ->
  exists (mem : list ascii) (argv : list nat),
    parse buf = Some (Args mem argv) /\
    length argv = length (words buf) /\
    arg_strings mem argv = List.map string_of_list_ascii (words buf).
Proof.
  intros Hfew.
  exists (zero_seps is_space buf), (word_starts is_space 0 false buf).
  split; [|split].
  - now apply parse_few.
  - apply starts_count.
  - exact (arg_strings_words buf [] [] (Forall_nil _)).
Qed.

(** X2.  Whatever the line, the argument loop ends, stores at most 15
    pointers, and changes the line in one way only: whitespace
    characters are overwritten with NUL; the length and every other
    character stay. *)
Theorem runcmd_only_zeroes_whitespace (buf : list ascii) :
  exists p : parsed,
    parse buf = Some p /\
    Forall2 kept_or_zeroed buf (mem_of p) /\
    length (mem_of p) = length buf /\
    match p with
    | TooMany _ => (15 < length (words buf))%nat
    | Args _ argv => (length argv <= 15)%nat
    end.
Proof.
  destruct (parse_loop_spec strchr strchr_spec (S (length buf)) [] buf [])
    as [Hargs Hmany]; [lia | cbn; lia |].
  cbn [app length] in Hargs, Hmany. rewrite starts_count in Hargs, Hmany.
  destruct (Nat.le_gt_cases (length (words buf)) 15) as [Hfew|Hgt].
  - exists (Args (zero_seps is_space buf) (word_starts is_space 0 false buf)).
    split; [now apply Hargs|]. cbn [mem_of].
    split; [apply zero_seps_kept|].
    split; [symmetry; exact (Forall2_length (zero_seps_kept buf))|].
    now rewrite starts_count.
  - destruct (Hmany Hgt) as (m & Hm & Hkept).
    exists (TooMany m). split; [exact Hm|]. cbn [mem_of].
    split; [exact Hkept|]. split; [symmetry; exact (Forall2_length Hkept)|].
    exact Hgt.
Qed.

(** X3.  A line of more than 15 words is refused: [runcmd] prints
    "Too many arguments (max 16)" and returns 0 without calling any
    command.  (15 words are accepted, by X1; the 16 of the message is
    the size of [argv], whose last slot holds the closing null.) *)
Theorem runcmd_too_many_arguments (buf : list ascii) (tf : Z) :
  (15 < length (words buf))%nat ->
  runcmd buf tf = (kprintf fmt_too_many [AInt 16] ;; Ret 0).
Proof.
  intros Hgt.
  destruct (parse_loop_spec strchr strchr_spec (S (length buf)) [] buf [])
    as [_ Hmany]; [lia | cbn; lia |].
  cbn [app length] in Hmany. rewrite starts_count in Hmany.
  destruct (Hmany Hgt) as (m & Hm & _).
  unfold Shell.runcmd. fold (Shell.parse strchr buf) in Hm.
  now rewrite Hm.
Qed.

Lemma runcmd_words (buf : list ascii) (tf : Z) :
  (length (words buf) <= 15)%nat ->
  runcmd buf tf
  = match words buf with
    | [] => Ret 0
    | _ => lookup commands (Z.of_nat (length (words buf)))
             (List.map string_of_list_ascii (words buf)) tf
    end.
Proof.
  intros Hfew.
  pose proof (arg_strings_words buf [] [] (Forall_nil _)) as Hstr.
  cbn [app length Nat.add] in Hstr.
  unfold Shell.runcmd. rewrite (parse_few buf Hfew), starts_count, Hstr.
  destruct (words buf) as [|w ws]; reflexivity.
Qed.

Lemma names_distinct : NoDup (List.map name commands).
Proof.
  cbn. repeat constructor; cbn; intuition discriminate.
Qed.

Lemma lookup_found (argc tf : Z) (rest : list string) (cs : list Command) :
  NoDup (List.map name cs) ->
  forall c, In c cs ->
    lookup cs argc (name c :: rest) tf
    = call (func c) argc (name c :: rest) tf.
Proof.
  induction cs as [|a cs IH]; intros Hnd c Hin; [contradiction|].
  cbn [List.map] in Hnd. inversion Hnd as [|? ? Hnotin Hnd']; subst.
  cbn [Shell.lookup nth].
  destruct (Z.eqb_spec (strcmp (name c) (name a)) 0) as [Heq|Hne].
  - apply strcmp_spec in Heq. destruct Hin as [->|Hin]; [reflexivity|].
    exfalso. apply Hnotin. rewrite <- Heq. now apply in_map.
  - destruct Hin as [->|Hin].
    + exfalso. apply Hne. now apply strcmp_spec.
    + now apply IH.
Qed.

Lemma lookup_unknown (argc tf : Z) (w : string) (rest : list string)
  (cs : list Command) :
  (forall c, In c cs -> name c <> w) ->
  lookup cs argc (w :: rest) tf = (kprintf fmt_unknown [AStr w] ;; Ret 0).
Proof.
  induction cs as [|a cs IH]; intros Hnone; [reflexivity|].
  cbn [Shell.lookup nth].
  destruct (Z.eqb_spec (strcmp w (name a)) 0) as [Heq|Hne].
  - apply strcmp_spec in Heq. exfalso.
    apply (Hnone a); [now left | now symmetry].
  - apply IH. intros c Hc. apply Hnone. now right.
Qed.

(** X4.  Dispatch.  On a line of 1 to 15 words [runcmd] looks the first
    word up in the command table: if it is the name of a command, that
    command's function is called with the number of words, the words and
    [tf], and its result is the result of [runcmd]; if it is no command's
    name, "Unknown command" is printed with the word and 0 is returned.
    A line without words returns 0 at once. *)
Theorem runcmd_dispatch (buf : list ascii) (tf : Z) :
  (length (words buf) <= 15)%nat ->
  (words buf = [] -> runcmd buf tf = Ret 0) /\
  (forall w ws, words buf = w :: ws ->
     (forall c, In c commands -> name c = string_of_list_ascii w ->
        runcmd buf tf
        = call (func c) (Z.of_nat (length (w :: ws)))
            (List.map string_of_list_ascii (w :: ws)) tf) /\
     ((forall c, In c commands -> name c <> string_of_list_ascii w) ->
        runcmd buf tf
        = (kprintf fmt_unknown [AStr (string_of_list_ascii w)] ;; Ret 0))).
Proof.
  intros Hfew. pose proof (runcmd_words buf tf Hfew) as Hrun.
  split; [|intros w ws Hw; split].
  - intros Hnil. now rewrite Hnil in Hrun.
  - intros c Hin Hname. rewrite Hw in Hrun. rewrite Hrun.
    cbn [List.map]. rewrite <- Hname.
    apply lookup_found; [exact names_distinct | exact Hin].
  - intros Hnone. rewrite Hw in Hrun. rewrite Hrun.
    cbn [List.map]. now apply lookup_unknown.
Qed.

Lemma words_skip_spaces (s x : list ascii) :
  Forall (fun c => is_space c = true) s -> words (s ++ x) = words x.
Proof.
  induction 1 as [|c s Hc _ IH]; [reflexivity|].
  cbn [app split_words]. rewrite Hc.
  destruct (Ascii.eqb_spec c NUL) as [->|_]; [discriminate Hc|].
  exact IH.
Qed.

(** X5.  A blank line is ignored: when the line holds nothing but
    whitespace before its end or its first NUL, [runcmd] returns 0
    without printing and without calling a command. *)
Theorem runcmd_blank_line (s t : list ascii) (tf : Z) :
  Forall (fun c => is_space c = true) s ->
  runcmd s tf = Ret 0 /\ runcmd (s ++ NUL :: t) tf = Ret 0.
Proof.
  intros Hs.
  assert (H1 : words s = []).
  { rewrite <- (app_nil_r s). now rewrite words_skip_spaces. }
  assert (H2 : words (s ++ NUL :: t) = []).
  { now rewrite words_skip_spaces. }
  split.
  - rewrite runcmd_words by (rewrite H1; cbn; lia). now rewrite H1.
  - rewrite runcmd_words by (rewrite H2; cbn; lia). now rewrite H2.
Qed.

(** X6.  [free_page] and [page_status] do nothing to the page tables
    unless an address is given: on a line whose only word is the command
    name, [runcmd] prints the request for an address and returns 1, and
    neither [page_remove] nor [page_lookup] is called.  With an address
    word, [free_page] removes the page at [KADDR] of the number [strtol]
    reads from that word in base 16, truncated to 32 bits. *)
Theorem page_commands_need_an_address (buf : list ascii) (tf : Z) :
  (words buf = [list_ascii_of_string "free_page"] ->
   runcmd buf tf = (kprintf fmt_need_addr [] ;; Ret 1)) /\
  (words buf = [list_ascii_of_string "page_status"] ->
   runcmd buf tf = (kprintf fmt_need_addr [] ;; Ret 1)) /\
  (forall a : list ascii,
     words buf = [list_ascii_of_string "free_page"; a] ->
     runcmd buf tf
     = (addr <- trigger (Strtol (string_of_list_ascii a) 16) ;;
        pgdir <- trigger ReadBootPgdir ;;
        va <- trigger (Kaddr (wrap32 addr)) ;;
        trigger (PageRemove pgdir va) ;;
        Ret 0)).
Proof.
  split; [|split].
  - intros Hw. rewrite runcmd_words by (rewrite Hw; cbn; lia).
    rewrite Hw. cbn [List.map length].
    rewrite string_of_list_ascii_of_string.
    exact (lookup_found 1 tf [] commands names_distinct
             (mkCommand "free_page" "Free a page with given physical address"
                Fn_mon_free_page)
             ltac:(cbn; tauto)).
  - intros Hw. rewrite runcmd_words by (rewrite Hw; cbn; lia).
    rewrite Hw. cbn [List.map length].
    rewrite string_of_list_ascii_of_string.
    exact (lookup_found 1 tf [] commands names_distinct
             (mkCommand "page_status"
                "Show status of a page with given physical address"
                Fn_mon_page_status)
             ltac:(cbn; tauto)).
  - intros a Hw. rewrite runcmd_words by (rewrite Hw; cbn; lia).
    rewrite Hw. cbn [List.map length].
    rewrite string_of_list_ascii_of_string.
    exact (lookup_found 2 tf [string_of_list_ascii a] commands names_distinct
             (mkCommand "free_page" "Free a page with given physical address"
                Fn_mon_free_page)
             ltac:(cbn; tauto)).
Qed.

(** X10.  The arguments a command receives are never empty and never
    hold whitespace: whenever the argument loop ends normally, each
    string reached through [argv] has at least one character and none of
    its characters is NUL, tab, CR, LF or space. *)
Theorem runcmd_arguments_are_clean (buf mem : list ascii) (argv : list nat) :
  parse buf = Some (Args mem argv) ->
  Forall (fun a : string =>
            a <> EmptyString /\
            Forall (fun c => c <> NUL /\ is_space c = false)
                   (list_ascii_of_string a))
         (arg_strings mem argv).
Proof.
  intros Hparse.
  destruct (Nat.le_gt_cases (length (words buf)) 15) as [Hfew|Hgt].
  - rewrite (parse_few buf Hfew) in Hparse. inversion Hparse; subst mem argv.
    pose proof (arg_strings_words buf [] [] (Forall_nil _)) as Hstr.
    cbn [app length Nat.add] in Hstr. rewrite Hstr.
    apply Forall_map.
    eapply Forall_impl; [|exact (split_words_clean buf [] (Forall_nil _))].
    intros w [Hne Hw]. split.
    + destruct w; [congruence | discriminate].
    + rewrite list_ascii_of_string_of_list_ascii.
      eapply Forall_impl; [|exact Hw]. intros c [Hc Hsp]. split; [|exact Hsp].
      intros ->. rewrite Ascii.eqb_refl in Hc. discriminate.
  - destruct (parse_loop_spec strchr strchr_spec (S (length buf)) [] buf [])
      as [_ Hmany]; [lia | cbn; lia |].
    cbn [app length Nat.add] in Hmany. rewrite starts_count in Hmany.
    destruct (Hmany Hgt) as (m & Hm & _). fold (parse buf) in Hm.
    rewrite Hm in Hparse. discriminate.
Qed.

(** *** What the commands return *)

Lemma backtrace_leaf (a b c r : Z) : Leaf r (mon_backtrace a b c) -> r = 0.
Proof.
  unfold mon_backtrace. intros H.
  repeat (apply Leaf_bind_inv in H; destruct H as (? & _ & H)).
  now apply Leaf_Ret_inv in H.
Qed.

(** Every command of the table returns 0 or 1. *)
Lemma call_leaf (f : mon_fn) (argc : Z) (argv : list string) (tf r : Z) :
  Leaf r (call f argc argv tf) -> r = 0 \/ r = 1.
Proof.
  destruct f; cbn [Shell.call]; intros H.
  - unfold mon_help in H.
    apply Leaf_bind_inv in H; destruct H as (? & _ & H).
    apply Leaf_Ret_inv in H. now left.
  - unfold mon_kerninfo, kprintf in H.
    repeat (apply Leaf_bind_inv in H; destruct H as (? & _ & H)).
    apply Leaf_Ret_inv in H. now left.
  - apply Leaf_translate_inv in H. left. now apply backtrace_leaf in H.
  - unfold mon_alloc_page, kprintf in H.
    apply Leaf_bind_inv in H; destruct H as (rp & _ & H).
    destruct (fst rp =? - E_NO_MEM);
      repeat (apply Leaf_bind_inv in H; destruct H as (? & _ & H));
      apply Leaf_Ret_inv in H; auto.
  - unfold mon_page_status, kprintf in H. destruct (argc <? 2).
    + repeat (apply Leaf_bind_inv in H; destruct H as (? & _ & H)).
      apply Leaf_Ret_inv in H; auto.
    + do 5 (apply Leaf_bind_inv in H; destruct H as (? & _ & H)).
      apply Leaf_Ret_inv in H; auto.
  - unfold mon_free_page, kprintf in H. destruct (argc <? 2);
      repeat (apply Leaf_bind_inv in H; destruct H as (? & _ & H));
      apply Leaf_Ret_inv in H; auto.
Qed.

Lemma lookup_leaf (cs : list Command) (argc : Z) (argv : list string)
  (tf r : Z) :
  Leaf r (lookup cs argc argv tf) -> r = 0 \/ r = 1.
Proof.
  induction cs as [|c cs IH]; cbn [Shell.lookup]; intros H.
  - unfold kprintf in H.
    apply Leaf_bind_inv in H; destruct H as (? & _ & H).
    apply Leaf_Ret_inv in H. now left.
  - destruct (strcmp (nth 0 argv EmptyString) (name c) =? 0);
      [now apply call_leaf in H | now apply IH].
Qed.

Lemma runcmd_leaf (buf : list ascii) (tf r : Z) :
  Leaf r (runcmd buf tf) -> r = 0 \/ r = 1.
Proof.
  unfold Shell.runcmd.
  destruct (parse_loop_spec strchr strchr_spec (S (length buf)) [] buf [])
    as [Hargs Hmany]; [lia | cbn; lia |].
  cbn [app length Nat.add] in Hargs, Hmany.
  rewrite starts_count in Hargs, Hmany.
  fold (parse buf) in Hargs, Hmany.
  destruct (Nat.le_gt_cases (length (words buf)) 15) as [Hfew|Hgt].
  - rewrite (Hargs Hfew). intros H.
    destruct (Z.of_nat _ =? 0);
      [apply Leaf_Ret_inv in H; now left | now apply lookup_leaf in H].
  - destruct (Hmany Hgt) as (m & Hm & _). rewrite Hm. intros H.
    unfold kprintf in H.
    apply Leaf_bind_inv in H; destruct H as (? & _ & H).
    apply Leaf_Ret_inv in H. now left.
Qed.

(** X7.  The monitor never returns.  [monitor] leaves its loop only when
    a command returns a negative number, and no command of the table
    does, nor does [runcmd] itself: whatever is typed and whatever the
    kernel functions answer, [monitor] has no result. *)
Theorem monitor_never_returns (tf : Z) (u : unit) :
  ~ Leaf u (monitor tf).
Proof.
  unfold Shell.monitor, kprintf. intros Hu.
  apply Leaf_bind_inv in Hu. destruct Hu as (? & _ & Hu).
  apply Leaf_bind_inv in Hu. destruct Hu as (? & _ & Hu).
  apply Leaf_bind_inv in Hu. destruct Hu as (? & _ & Hu).
  revert u Hu.
  apply (Leaf_iter_inv _ tt (fun _ => True) (fun _ => False)); [|exact I].
  intros [] r _ Hr. unfold Shell.monitor_body in Hr.
  apply Leaf_bind_inv in Hr. destruct Hr as ([line|] & _ & Hr).
  - apply Leaf_bind_inv in Hr. destruct Hr as (r0 & Hr0 & Hr).
    apply runcmd_leaf in Hr0.
    assert (Hpos : (r0 <? 0) = false) by (apply Z.ltb_ge; lia).
    rewrite Hpos in Hr. apply Leaf_Ret_inv in Hr. now subst r.
  - apply Leaf_Ret_inv in Hr. now subst r.
Qed.

(** X8.  The footprint [mon_kerninfo] prints is the size of the kernel
    image rounded up to whole kilobytes, as long as the size plus 1023
    fits an [int]. *)
Theorem kerninfo_footprint_rounds_up (argc : Z) (argv : list string) (tf : Z) :
  0 <= end_ - _start <= 2 ^ 31 - 1024 ->
  exists k : Z,
    1024 * (k - 1) < end_ - _start <= 1024 * k /\
    Shell.mon_kerninfo KERNBASE _start etext edata end_ argc argv tf
    = (kprintf fmt_special [] ;;
       kprintf fmt_start [AInt _start; AInt (wrap32 (_start - KERNBASE))] ;;
       kprintf fmt_etext [AInt etext; AInt (wrap32 (etext - KERNBASE))] ;;
       kprintf fmt_edata [AInt edata; AInt (wrap32 (edata - KERNBASE))] ;;
       kprintf fmt_end [AInt end_; AInt (wrap32 (end_ - KERNBASE))] ;;
       kprintf fmt_footprint [AInt k] ;;
       Ret 0).
Proof.
  intros Hsize. exists (Shell.footprint_kb _start end_).
  split; [|reflexivity].
  unfold Shell.footprint_kb.
  rewrite (IpcFacts.to_int32_small (end_ - _start)) by lia.
  rewrite IpcFacts.to_int32_small by lia.
  rewrite Z.quot_div_nonneg by lia.
  pose proof (Z.div_mod (end_ - _start + 1023) 1024 ltac:(lia)) as Hdm.
  pose proof (Z.mod_pos_bound (end_ - _start + 1023) 1024 ltac:(lia)) as Hb.
  lia.
Qed.

End Run.

(** *** The walk over a chain that never ends *)

(** X9.  When the frame-pointer chain from the starting frame pointer
    never reaches 0 (a cycle, say), [mon_backtrace] does not terminate:
    there is no state and result it ends with. *)
Theorem backtrace_endless_chain (argc argv tf : Z) (s : Machine) :
  (forall n, Nat.iter n (memory s) (reg_ebp s) <> 0) ->
  forall (s' : Machine) (r : Z),
    ~ interp_state h_mon (mon_backtrace argc argv tf) s ≈ Ret (s', r).
Proof.
  intros Hchain s' r Hrun.
  unfold mon_backtrace, read_ebp, read_eip, cprintf in Hrun.
  rewrite interp_state_bind, interp_state_trigger in Hrun.
  cbn [h_mon] in Hrun. rewrite bind_ret_l in Hrun. cbn [fst snd] in Hrun.
  rewrite interp_state_bind, interp_state_trigger in Hrun.
  cbn [h_mon] in Hrun. rewrite bind_ret_l in Hrun. cbn [fst snd] in Hrun.
  rewrite interp_state_bind, interp_state_trigger in Hrun.
  cbn [h_mon] in Hrun. rewrite bind_ret_l in Hrun. cbn [fst snd] in Hrun.
  rewrite interp_state_bind in Hrun.
  assert (Hleaf : Leaf (s', r)
    (ITree.bind
       (interp_state h_mon (ITree.iter backtrace_step (reg_ebp s))
          (did (APrint fmt_header []) s))
       (fun st => interp_state h_mon (Ret 0) (fst st)))).
  { rewrite Hrun. apply Leaf_Ret. }
  apply Leaf_bind_inv in Hleaf. destruct Hleaf as (sr & Hloop & _).
  apply (Leaf_interp_state_iter_inv h_mon backtrace_step
           (fun s1 => memory s1 = memory s)
           (fun i => exists n, i = Nat.iter n (memory s) (reg_ebp s))
           (fun _ : unit => False)) in Hloop.
  - destruct sr as [s1 []]. destruct Hloop as [_ []].
  - intros s1 i Hmem (n & ->) sx Hsx.
    rewrite (MonitorFacts.interp_step _ s1 (Hchain n)) in Hsx.
    apply Leaf_Ret_inv in Hsx. subst sx. cbn [prod_pred sum_pred].
    split; [exact Hmem|]. exists (S n). now rewrite Hmem.
  - reflexivity.
  - now exists O.
Qed.

(** *** Worked runs *)

Lemma demo_strchr_ok (s : string) (c : ascii) :
  c <> NUL -> demo_strchr s c = existsb (Ascii.eqb c) (list_ascii_of_string s).
Proof. reflexivity. Qed.

Lemma demo_strcmp_ok (a b : string) : demo_strcmp a b = 0 <-> a = b.
Proof.
  unfold demo_strcmp. destruct (String.eqb_spec a b); split; intros H;
    try assumption; try reflexivity; [discriminate | contradiction].
Qed.

Lemma runcmd_arguments_are_the_words_witness :
  exists (mem : list ascii) (argv : list nat),
    Shell.parse demo_strchr demo_line2 = Some (Args mem argv) /\
    length argv = 2%nat /\
    arg_strings mem argv = ["page_status"; "1000"]%string.
Proof.
  apply (runcmd_arguments_are_the_words demo_strchr demo_strchr_ok demo_line2).
  cbn. lia.
Defined.

Lemma runcmd_only_zeroes_whitespace_witness :
  exists p : parsed,
    Shell.parse demo_strchr demo_line16 = Some p /\
    Forall2 kept_or_zeroed demo_line16 (mem_of p) /\
    length (mem_of p) = length demo_line16 /\
    match p with
    | TooMany _ => (15 < length (split_words is_space [] demo_line16))%nat
    | Args _ argv => (length argv <= 15)%nat
    end.
Proof.
  apply (runcmd_only_zeroes_whitespace demo_strchr demo_strchr_ok demo_line16).
Defined.

Lemma runcmd_too_many_arguments_witness :
  demo_runcmd demo_line16 0 = (kprintf fmt_too_many [AInt 16] ;; Ret 0).
Proof.
  apply (runcmd_too_many_arguments 0xf0000000 4 0xf010000c 0xf0101a75
           0xf0112300 0xf0112960 0xf010ff00 demo_strchr demo_strcmp
           demo_strchr_ok demo_line16 0).
  cbn. lia.
Defined.

Lemma runcmd_dispatch_witness :
  demo_runcmd (list_ascii_of_string "backtrace now") 0
  = demo_call Fn_mon_backtrace 2 ["backtrace"; "now"]%string 0 /\
  demo_runcmd (list_ascii_of_string "bogus") 0
  = (kprintf fmt_unknown [AStr "bogus"] ;; Ret 0).
Proof.
  split.
  - refine (proj1 (proj2
      (runcmd_dispatch 0xf0000000 4 0xf010000c 0xf0101a75
         0xf0112300 0xf0112960 0xf010ff00 demo_strchr demo_strcmp
         demo_strchr_ok demo_strcmp_ok
         (list_ascii_of_string "backtrace now") 0 _)
      (list_ascii_of_string "backtrace") [list_ascii_of_string "now"] eq_refl)
      (mkCommand "backtrace" "Display the stack trace" Fn_mon_backtrace) _ _).
    + cbn. lia.
    + cbn. tauto.
    + reflexivity.
  - refine (proj2 (proj2
      (runcmd_dispatch 0xf0000000 4 0xf010000c 0xf0101a75
         0xf0112300 0xf0112960 0xf010ff00 demo_strchr demo_strcmp
         demo_strchr_ok demo_strcmp_ok
         (list_ascii_of_string "bogus") 0 _)
      (list_ascii_of_string "bogus") [] eq_refl) _).
    + cbn. lia.
    + intros c Hin. cbn in Hin.
      repeat (destruct Hin as [<-|Hin]; [discriminate|]). contradiction.
Defined.

Lemma runcmd_blank_line_witness :
  demo_runcmd (list_ascii_of_string "   ") 0 = Ret 0 /\
  demo_runcmd (list_ascii_of_string "   " ++ NUL :: list_ascii_of_string "help")
    0 = Ret 0.
Proof.
  apply (runcmd_blank_line 0xf0000000 4 0xf010000c 0xf0101a75
           0xf0112300 0xf0112960 0xf010ff00 demo_strchr demo_strcmp
           demo_strchr_ok).
  repeat constructor.
Defined.

Lemma page_commands_need_an_address_witness :
  demo_runcmd (list_ascii_of_string " free_page ") 0
  = (kprintf fmt_need_addr [] ;; Ret 1).
Proof.
  apply (proj1 (page_commands_need_an_address 0xf0000000 4 0xf010000c
           0xf0101a75 0xf0112300 0xf0112960 0xf010ff00 demo_strchr demo_strcmp
           demo_strchr_ok demo_strcmp_ok
           (list_ascii_of_string " free_page ") 0)).
  reflexivity.
Defined.

Lemma monitor_never_returns_witness : ~ Leaf tt (demo_monitor 0).
Proof.
  apply (monitor_never_returns 0xf0000000 4 0xf010000c 0xf0101a75
           0xf0112300 0xf0112960 0xf010ff00 demo_strchr demo_strcmp
           demo_strchr_ok).
Defined.

Lemma kerninfo_footprint_rounds_up_witness :
  exists k : Z,
    1024 * (k - 1) < 0xf0112960 - 0xf010000c <= 1024 * k /\
    Shell.mon_kerninfo 0xf0000000 0xf010000c 0xf0101a75 0xf0112300 0xf0112960
      0 [] 0
    = (kprintf fmt_special [] ;;
       kprintf fmt_start
         [AInt 0xf010000c; AInt (wrap32 (0xf010000c - 0xf0000000))] ;;
       kprintf fmt_etext
         [AInt 0xf0101a75; AInt (wrap32 (0xf0101a75 - 0xf0000000))] ;;
       kprintf fmt_edata
         [AInt 0xf0112300; AInt (wrap32 (0xf0112300 - 0xf0000000))] ;;
       kprintf fmt_end
         [AInt 0xf0112960; AInt (wrap32 (0xf0112960 - 0xf0000000))] ;;
       kprintf fmt_footprint [AInt k] ;;
       Ret 0).
Proof.
  apply (kerninfo_footprint_rounds_up 0xf0000000 0xf010000c 0xf0101a75
           0xf0112300 0xf0112960 0 [] 0).
  lia.
Defined.

Lemma backtrace_endless_chain_witness :
  ~ exists (s' : Machine) (r : Z),
      interp_state h_mon (mon_backtrace 1 0 0) demo_loop_machine ≈ Ret (s', r).
Proof.
  intros (s' & r & Hrun).
  apply (backtrace_endless_chain 1 0 0 demo_loop_machine) with (s' := s') (r := r).
  - intros n. destruct n as [|n]; cbn; lia.
  - exact Hrun.
Defined.

Lemma runcmd_arguments_are_clean_witness :
  Forall (fun a : string =>
            a <> EmptyString /\
            Forall (fun c => c <> NUL /\ is_space c = false)
                   (list_ascii_of_string a))
         (arg_strings (zero_seps is_space demo_line2)
                      (word_starts is_space 0 false demo_line2)).
Proof.
  apply (runcmd_arguments_are_clean demo_strchr demo_strchr_ok demo_line2).
  reflexivity.
Defined.

End ShellFacts.

(* ===================================================================== *)
(** * Further properties of lib/ipc.c *)
(* ===================================================================== *)

Module IpcMore.
Import Ipc.

(** A loop whose body always asks for another round never ends. *)
Lemma iter_spin {E I R} (f : I -> itree E (I + R)) (Inv : I -> Prop) :
  (forall i, Inv i -> exists j, f i ≅ Ret (inl j) /\ Inv j) ->
  forall i, Inv i -> ITree.iter f i ≈ ITree.spin.
Proof.
  intros Hf. ginit. gcofix CIH. intros i Hi.
  destruct (Hf i Hi) as (j & Hfi & Hj).
  rewrite unfold_iter. rewrite Hfi. rewrite bind_ret_l.
  rewrite (itree_eta ITree.spin). cbn.
  gstep. constructor. gbase. apply CIH. exact Hj.
Qed.

Lemma bind_spin {E A B} (k : A -> itree E B) :
  ITree.bind (@ITree.spin E A) k ≈ ITree.spin.
Proof.
  ginit. gcofix CIH.
  rewrite (itree_eta (@ITree.spin E A)). cbn. rewrite bind_tau.
  rewrite (itree_eta (@ITree.spin E B)). cbn.
  gstep. constructor. gbase. apply CIH.
Qed.

(** The first round of [ipc_send], as the calls it makes: one attempt,
    one yield, and then, on [-E_IPC_NOT_RECV], the whole thing again. *)
Lemma send_unfold (E to_env val pg perm : Z) :
  ipc_send E to_env val pg perm
  ≈ (r <- sys_ipc_try_send to_env val (page_arg pg) perm ;;
     sys_yield ;;
     if r =? - E then ipc_send E to_env val pg perm
     else if r <? 0 then panic r to_env else Ret tt).
Proof.
  unfold ipc_send at 1. rewrite unfold_iter. unfold ipc_send_body at 1.
  replace (if pg =? NULL
           then sys_ipc_try_send to_env val 0xffffffff perm
           else sys_ipc_try_send to_env val pg perm)
    with (sys_ipc_try_send to_env val (page_arg pg) perm)
    by (unfold page_arg; now destruct (pg =? NULL)).
  rewrite !bind_bind. apply eutt_eq_bind. intros r.
  rewrite !bind_bind. apply eutt_eq_bind. intros [].
  destruct (r =? - E).
  - rewrite bind_ret_l, bind_tau, tau_eutt. reflexivity.
  - rewrite !bind_ret_l. reflexivity.
Qed.

(** X11.  A target that never receives keeps [ipc_send] busy for ever.
    Whatever the kernel answers, a call is one [sys_ipc_try_send], one
    [sys_yield] and, on [-E_IPC_NOT_RECV], the same call again.  When
    every attempt is answered [-E_IPC_NOT_RECV], each pass through the
    loop body ends, asks for another pass, and has added exactly one
    attempt followed by one yield to the calls made; so after [n] passes
    [n] attempts and [n] yields were made, and the call neither returns
    nor panics. *)
Theorem ipc_send_never_gives_up
  (E to_env val pg perm : Z) (m : Mock) :
  (forall k, try_send_ret m (k + attempts m) = - E) ->
  let run := interp_state h_mock (ipc_send E to_env val pg perm) in
  let after := after_rounds to_env val pg perm in
  ipc_send E to_env val pg perm
  ≈ (r <- sys_ipc_try_send to_env val (page_arg pg) perm ;;
     sys_yield ;;
     if r =? - E then ipc_send E to_env val pg perm
     else if r <? 0 then panic r to_env else Ret tt) /\
  (forall n : nat,
     interp_state h_mock (ipc_send_body E to_env val pg perm tt) (after n m)
     ≈ Ret (after (S n) m, inl tt) /\
     calls (after (S n) m)
     = calls (after n m) ++ [CTrySend to_env val (page_arg pg) perm; CYield] /\
     attempts (after (S n) m) = S (attempts (after n m)) /\
     deliveries (calls (after n m)) = (deliveries (calls m) + n)%nat /\
     yields (calls (after n m)) = (yields (calls m) + n)%nat) /\
  after O m = m /\
  run m ≈ ITree.spin /\
  (forall m', ~ run m ≈ Ret (m', tt)) /\
  (forall m' r e, ~ run m ≈ aborted m' r e) /\
  (forall n : nat,
     run m ≈ run (after n m) /\
     calls (after n m)
     = calls m ++ rounds n to_env val (page_arg pg) perm).
Proof.
  intros Hall run after.
  assert (Hspin : run m ≈ ITree.spin).
  { unfold run. rewrite IpcFacts.interp_send_unfold.
    rewrite (interp_state_iter'_eutt h_mock
               (ipc_send_body E to_env val pg perm)
               (fun _ s => Ret (after_round to_env val pg perm s,
                  if try_send_ret s (attempts s) =? - E
                  then inl tt else inr (try_send_ret s (attempts s)))))
      by (intros [] s; apply IpcFacts.interp_body).
    unfold Basics.iter, MonadIter_stateT0, Basics.iter, MonadIter_itree.
    rewrite (iter_spin _
               (fun si => exists n, fst si = after_rounds to_env val pg perm n m)).
    - apply bind_spin.
    - intros [s []] (n & Hs). cbn [fst snd] in *. subst s.
      exists (after_rounds to_env val pg perm (S n) m, tt). split.
      + unfold bind, ret, Monad_itree. rewrite bind_ret_l. cbn [fst snd].
        change (attempts (after_rounds to_env val pg perm n m))
          with (n + attempts m)%nat.
        change (try_send_ret (after_rounds to_env val pg perm n m))
          with (try_send_ret m).
        rewrite Hall, Z.eqb_refl, IpcFacts.after_rounds_S. reflexivity.
      + exists (S n). reflexivity.
    - exists O. cbn [fst]. symmetry. apply IpcFacts.after_rounds_0. }
  split; [apply send_unfold|].
  split; [|split; [apply IpcFacts.after_rounds_0|]].
  - intros n. unfold after.
    split; [|split; [|split; [reflexivity|split]]].
    + rewrite IpcFacts.interp_body.
      change (attempts (after_rounds to_env val pg perm n m))
        with (n + attempts m)%nat.
      change (try_send_ret (after_rounds to_env val pg perm n m))
        with (try_send_ret m).
      rewrite Hall, Z.eqb_refl, IpcFacts.after_rounds_S. reflexivity.
    + cbn [after_rounds calls]. rewrite IpcFacts.rounds_snoc.
      now rewrite <- app_assoc.
    + cbn [after_rounds calls]. unfold deliveries.
      rewrite filter_app, length_app. f_equal.
      induction n as [|n IH]; [reflexivity|].
      cbn [rounds filter is_try_send length]. now rewrite IH.
    + cbn [after_rounds calls]. unfold yields.
      rewrite filter_app, length_app. f_equal.
      induction n as [|n IH]; [reflexivity|].
      cbn [rounds filter is_yield length]. now rewrite IH.
  - split; [exact Hspin|]. split; [|split].
    + intros m' Hret. rewrite Hspin in Hret.
      exact (eutt_spin_Ret_abs _ Hret).
    + intros m' r e Hab. rewrite Hspin in Hab. unfold aborted in Hab.
      exact (eutt_spin_Vis_abs _ _ Hab).
    + intros n. split; [|reflexivity].
      apply IpcFacts.interp_send_retries. intros k _. apply Hall.
Qed.

Lemma ipc_send_never_gives_up_witness :
  interp_state h_mock (ipc_send_body 7 4097 42 0 0 tt)
    (mock0 0 (fun _ => -7) (fun _ => 0) (fun _ => 0))
  ≈ Ret (mkMock 0 (fun _ => -7) (fun _ => 0) 1 (fun _ => 0)
           [CTrySend 4097 42 0xffffffff 0; CYield],
         inl tt) /\
  interp_state h_mock (ipc_send 7 4097 42 0 0)
    (mock0 0 (fun _ => -7) (fun _ => 0) (fun _ => 0)) ≈ ITree.spin.
Proof.
  pose proof (ipc_send_never_gives_up 7 4097 42 0 0
                (mock0 0 (fun _ => -7) (fun _ => 0) (fun _ => 0))
                (fun k => eq_refl)) as H.
  split.
  - exact (proj1 (proj1 (proj2 H) O)).
  - exact (proj1 (proj2 (proj2 (proj2 H)))).
Defined.

(** X12.  When both out-parameters of [ipc_recv] are the same non-null
    address, the sender's id is stored first and overwritten: the word
    left there is the permission (0 after a failed receive), and two
    stores to that address are made. *)
Theorem ipc_recv_same_out_parameter (p pg : Z) (m : Mock) :
  p <> NULL ->
  exists (m' : Mock) (r x y : Z),
    interp_state h_mock (ipc_recv p pg p) m ≈ Ret (m', r) /\
    (recv_ret m < 0 -> x = 0 /\ y = 0) /\
    (0 <= recv_ret m ->
     x = env_of m env_ipc_from /\ y = env_of m env_ipc_perm) /\
    calls m' = calls m ++ [CRecv (page_arg pg); CStore p x; CStore p y] /\
    mem m' p = y.
Proof.
  intros Hp. apply Z.eqb_neq in Hp.
  destruct (IpcFacts.recv_post_calls p pg p m) as (x & y & Hxy & Hc & Hm).
  exists (fst (recv_post p pg p m)), (snd (recv_post p pg p m)), x, y.
  split; [rewrite IpcFacts.interp_recv; now destruct (recv_post p pg p m)|].
  split; [intros Hneg; apply Z.ltb_lt in Hneg; now rewrite Hneg in Hxy|].
  split; [intros Hok; apply Z.ltb_ge in Hok; now rewrite Hok in Hxy|].
  split.
  - rewrite Hc. unfold opt_store. now rewrite Hp.
  - rewrite Hm, Hp, Z.eqb_refl. reflexivity.
Qed.

Lemma ipc_recv_same_out_parameter_witness :
  exists (m' : Mock) (r x y : Z),
    interp_state h_mock (ipc_recv 0x1000 NULL 0x1000)
      (mock0 0 (fun _ => 0) (fun f => match f with
                                      | env_ipc_from => 4097
                                      | env_ipc_perm => 7
                                      | env_ipc_value => 42
                                      end) (fun _ => 0)) ≈ Ret (m', r) /\
    (0 < 0 -> x = 0 /\ y = 0) /\
    (0 <= 0 -> x = 4097 /\ y = 7) /\
    calls m' = [] ++ [CRecv (page_arg NULL); CStore 0x1000 x; CStore 0x1000 y] /\
    mem m' 0x1000 = y.
Proof.
  apply (ipc_recv_same_out_parameter 0x1000 NULL
           (mock0 0 (fun _ => 0) (fun f => match f with
                                           | env_ipc_from => 4097
                                           | env_ipc_perm => 7
                                           | env_ipc_value => 42
                                           end) (fun _ => 0))).
  unfold NULL. lia.
Defined.

End IpcMore.
